(** * often_ai: the metered LLM gateway and its ledger

    A shallow embedding of the two services of the repository:

    - the Cloud Functions of [functions/index.js] (admin deposit, transfer
      between agents, currency conversion), and
    - the multi-provider proxy (pricing table, cost engine, Anthropic
      translation, chat-completions handler with its atomic debit).

    Both services work on the same Firestore database: one document per
    account under [accounts/], and an append-only [transactions] collection
    (the journal).

    Modelling conventions.

    - A JavaScript number is a value of [JS.num]: a rational or [NaN]. The
      sums, differences and products of [JS.num] are the exact ones, which
      are those of the doubles on integers of magnitude up to 2^53: a theorem
      that depends on the value of one of them states that range
      ([Spec.exact], [Spec.bounded]). Where the program multiplies or divides
      prices, which are no integers, the result is rounded as binary64 does
      ([JS.double]), infinities included.
    - [undefined] is [None] where a field may be missing.
    - A property read [obj[k]] on an object literal sees the properties the
      literal declares and the ones it inherits from [Object.prototype].
    - A Firestore transaction is a function from the store it reads to either
      an error (nothing is written) or the list of writes it buffered, which
      are then applied together.
    - The server timestamp and the generated document ids of journal entries
      are left out. *)

From Stdlib Require Import ZArith QArith Qcanon Qround Lia.
From stdpp Require Import gmap strings list fin_maps.

Local Open Scope string_scope.
Local Open Scope list_scope.
Local Open Scope Z_scope.

(* ===================================================================== *)
(** * JavaScript values                                                  *)
(* ===================================================================== *)

Module JS.

(** Numbers: a rational, or NaN. *)
Inductive num : Type :=
| Fin (q : Qc)
| NaN.

#[global] Instance num_eq_dec : EqDecision num.
Proof. solve_decision. Defined.

Definition of_Z (z : Z) : num := Fin (Qc_of_Z z).

Definition add (a b : num) : num :=
  match a, b with Fin x, Fin y => Fin (x + y)%Qc | _, _ => NaN end.

Definition sub (a b : num) : num :=
  match a, b with Fin x, Fin y => Fin (x - y)%Qc | _, _ => NaN end.

Definition mul (a b : num) : num :=
  match a, b with Fin x, Fin y => Fin (x * y)%Qc | _, _ => NaN end.

(** [a / b], exact. The program divides by the constant 1000000 only;
    a zero divisor, which would give an infinity, reads as [NaN]. *)
Definition div (a b : num) : num :=
  match a, b with
  | Fin x, Fin y => if bool_decide (y = Qc_of_Z 0) then NaN else Fin (x / y)%Qc
  | _, _ => NaN
  end.

(** [a < b] and [a <= b]: false as soon as one side is [NaN]. *)
Definition lt (a b : num) : bool :=
  match a, b with Fin x, Fin y => bool_decide (x < y)%Qc | _, _ => false end.

Definition le (a b : num) : bool :=
  match a, b with Fin x, Fin y => bool_decide (x <= y)%Qc | _, _ => false end.

(** Truthiness of a number: [0] and [NaN] are falsy. *)
Definition truthy (a : num) : bool :=
  match a with Fin x => negb (bool_decide (x = Qc_of_Z 0)) | NaN => false end.

(** [v || 0] for a possibly missing number [v]. *)
Definition or_zero (v : option num) : num :=
  match v with
  | Some a => if truthy a then a else of_Z 0
  | None => of_Z 0
  end.

(** [Math.ceil], and [Math.round] (which rounds halves up). *)
Definition ceil (a : num) : num :=
  match a with Fin x => of_Z (Qceiling x) | NaN => NaN end.

Definition half : Qc := Q2Qc (1 # 2).

Definition round (a : num) : num :=
  match a with Fin x => of_Z (Qfloor (x + half)%Qc) | NaN => NaN end.

(** [Number.isInteger]. *)
Definition isInteger (a : num) : bool :=
  match a with Fin x => bool_decide (Qden x = 1%positive) | NaN => false end.

(** [BigInt(a)] throws a RangeError unless [a] is an integer. *)
Definition toBigInt (a : num) : option Z :=
  match a with
  | Fin x => if bool_decide (Qden x = 1%positive) then Some (Qnum x) else None
  | NaN => None
  end.

(** ** Doubles

    Where the program multiplies or divides numbers that are not integers
    (a price by 100, a price by a price), the result is the double nearest
    to the exact one, ties to the even significand, and an infinity past the
    largest double. [Inf true] is [-Infinity]. Negative zero is not told
    from zero. *)
Inductive wide : Type :=
| Num (n : num)
| Inf (negative : bool).

#[global] Instance wide_eq_dec : EqDecision wide.
Proof. solve_decision. Defined.

(** [2^k] for an integer [k] of either sign. *)
Definition pow2 (k : Z) : Qc :=
  if bool_decide (0 <= k) then Qc_of_Z (2 ^ k)
  else (/ Qc_of_Z (2 ^ (- k)))%Qc.

(** The [e] with [2^e <= a < 2^(e+1)], for a positive [a]. *)
Definition binade (a : Qc) : Z :=
  let e := Z.log2 (Qnum a) - Z.log2 (Zpos (Qden a)) in
  if bool_decide (a < pow2 e)%Qc then e - 1 else e.

(** The integer nearest to [x >= 0], the even one of two. *)
Definition nearest_even (x : Qc) : Z :=
  let f := Qfloor x in
  let r := (x - Qc_of_Z f)%Qc in
  if bool_decide (r < half)%Qc then f
  else if bool_decide (half < r)%Qc then f + 1
  else if Z.even f then f else f + 1.

(** Binary64: 53 bits of significand, exponents from -1022 to 1023. *)
Definition double (q : Qc) : wide :=
  let negative := bool_decide (q < Qc_of_Z 0)%Qc in
  let a := if negative then (- q)%Qc else q in
  let k := Z.max (binade a) (-1022) - 52 in
  let v := (Qc_of_Z (nearest_even (a / pow2 k)) * pow2 k)%Qc in
  if bool_decide (v < pow2 1024)%Qc
  then Num (Fin (if negative then (- v)%Qc else v))
  else Inf negative.

(** [a * b] and [a / b], rounded. The sign of a zero divisor is taken to be
    positive. *)
Definition mul64 (a b : num) : wide :=
  match a, b with Fin x, Fin y => double (x * y) | _, _ => Num NaN end.

Definition div64 (a b : num) : wide :=
  match a, b with
  | Fin x, Fin y =>
      if bool_decide (y = Qc_of_Z 0) then
        if bool_decide (x = Qc_of_Z 0) then Num NaN
        else Inf (bool_decide (x < Qc_of_Z 0)%Qc)
      else double (x / y)
  | _, _ => Num NaN
  end.

(** [Math.round] keeps an infinity, and [BigInt] refuses it. *)
Definition round64 (a : wide) : wide :=
  match a with Num n => Num (round n) | Inf s => Inf s end.

Definition toBigInt64 (a : wide) : option Z :=
  match a with Num n => toBigInt n | Inf _ => None end.

(** Truthiness of a string: only the empty string is falsy. *)
Definition truthy_str (s : string) : bool := negb (String.eqb s "").

(** ** Values taken for strings

    A field of a request body that the program uses as the id of an account
    without looking at its type. [Str s] is the string [s]. [NotStr s] is a
    value that is truthy and is not a string, such as the array [[s]]:
    [s] is its conversion to a string, which is what a template literal
    makes of it. A field that is missing, or whose value is falsy, is
    refused like the empty string, and is [Str ""] here. *)
Inductive Id : Type :=
| Str (s : string)
| NotStr (s : string).

(** [`${i}`] *)
Definition text (i : Id) : string := match i with Str s | NotStr s => s end.


Definition truthy_id (i : Id) : bool :=
  match i with Str s => truthy_str s | NotStr _ => true end.

(** [i === s] for a string [s]: a value of another type is never equal. *)
Definition same (i : Id) (s : string) : bool :=
  match i with Str s' => String.eqb s' s | NotStr _ => false end.

(** ** Property reads on object literals *)

(** The properties every object literal inherits. All of them are functions,
    except [__proto__], which is [Object.prototype] itself: truthy values
    without any property of the tables below. *)
Definition OBJECT_PROTOTYPE_KEYS : list string :=
  [ "constructor"; "hasOwnProperty"; "isPrototypeOf"; "propertyIsEnumerable";
    "toLocaleString"; "toString"; "valueOf"; "__proto__";
    "__defineGetter__"; "__defineSetter__"; "__lookupGetter__";
    "__lookupSetter__" ].

Inductive property (A : Type) : Type :=
| Own (a : A)
| Inherited (k : string)
| Undefined.
Arguments Own {A} a.
Arguments Inherited {A} k.
Arguments Undefined {A}.

Fixpoint assoc {A : Type} (k : string) (l : list (string * A)) : option A :=
  match l with
  | [] => None
  | (k', a) :: l' => if String.eqb k k' then Some a else assoc k l'
  end.

Definition inherited (k : string) : bool :=
  existsb (String.eqb k) OBJECT_PROTOTYPE_KEYS.

(** [obj[k]] where [obj] is the literal with the properties [own]. *)
Definition get {A : Type} (own : list (string * A)) (k : string) : property A :=
  match assoc k own with
  | Some a => Own a
  | None => if inherited k then Inherited k else Undefined
  end.

(** [x || d]: every inherited value is truthy, as is every table row. *)
Definition or_else {A : Type} (x : property A) (d : property A) : property A :=
  match x with Undefined => d | _ => x end.

End JS.

Import JS.

(* ===================================================================== *)
(** * Pricing table and cost engine (proxy)                              *)
(* ===================================================================== *)

Module Pricing.

(** Microdollars per million tokens. *)
Record Row : Type := { input : Z; output : Z }.

Definition PRICING : list (string * Row) :=
  [ ("gpt-4o", {| input := 2500000; output := 10000000 |});
    ("gpt-4o-mini", {| input := 150000; output := 600000 |});
    ("gpt-4-turbo", {| input := 10000000; output := 30000000 |});
    ("gpt-3.5-turbo", {| input := 500000; output := 1500000 |});
    ("o1", {| input := 15000000; output := 60000000 |});
    ("o1-mini", {| input := 3000000; output := 12000000 |});
    ("o3-mini", {| input := 1100000; output := 4400000 |});
    ("claude-sonnet-4-20250514", {| input := 3000000; output := 15000000 |});
    ("claude-opus-4-20250514", {| input := 15000000; output := 75000000 |});
    ("claude-haiku-4-20250414", {| input := 800000; output := 4000000 |});
    ("claude-3-5-sonnet-20241022", {| input := 3000000; output := 15000000 |});
    ("claude-3-5-haiku-20241022", {| input := 800000; output := 4000000 |});
    ("gemini-2.5-pro", {| input := 1250000; output := 10000000 |});
    ("gemini-2.5-flash", {| input := 150000; output := 600000 |});
    ("gemini-2.0-flash", {| input := 100000; output := 400000 |});
    ("mistral-large-latest", {| input := 2000000; output := 6000000 |});
    ("mistral-small-latest", {| input := 200000; output := 600000 |});
    ("meta-llama/Llama-3.1-70B-Instruct-Turbo",
       {| input := 880000; output := 880000 |});
    ("meta-llama/Llama-3.1-8B-Instruct-Turbo",
       {| input := 180000; output := 180000 |});
    ("deepseek-ai/DeepSeek-V3", {| input := 900000; output := 900000 |}) ].

Definition DEFAULT_PRICING : Row := {| input := 2500000; output := 10000000 |}.
Definition MIN_BALANCE_MICROS : Z := 1000.

(** [p.input] and [p.output]: [undefined] on an inherited value, which the
    multiplication turns into [NaN]. *)
Definition p_input (p : property Row) : num :=
  match p with Own r => of_Z (input r) | _ => NaN end.

Definition p_output (p : property Row) : num :=
  match p with Own r => of_Z (output r) | _ => NaN end.

(** The products, the sum and the quotient are the exact ones. Those of the
    doubles have the same ceiling when the token counts are whole numbers
    and the sum is at most 2^53 (see [Spec.exact_usage]). *)
Definition calculateCostMicros (model : string)
    (promptTokens completionTokens : num) : num :=
  let p := or_else (get PRICING model) (Own DEFAULT_PRICING) in
  let cost :=
    div (add (mul promptTokens (p_input p)) (mul completionTokens (p_output p)))
        (of_Z 1000000) in
  ceil cost.

(** The row the specification bills a model with: its own, or the default. *)
Definition row_of (model : string) : Row :=
  match assoc model PRICING with Some r => r | None => DEFAULT_PRICING end.

(** Rounded-up integer division, the specification's ceiling. *)
Definition ceil_div (n d : Z) : Z := (n + d - 1) / d.

Definition cost_spec (model : string) (p c : Z) : Z :=
  ceil_div (p * input (row_of model) + c * output (row_of model)) 1000000.

End Pricing.

(* ===================================================================== *)
(** * The store: accounts, journal, transactions                         *)
(* ===================================================================== *)

Module Store.

(** A thrown JavaScript error: its [message] and, for an error raised by the
    HTTP client on a non-2xx reply, the [response] (status and error text). *)
Record exn : Type := { message : string; response : option (Z * string) }.

Definition Error (msg : string) : exn := {| message := msg; response := None |}.

Inductive result (A : Type) : Type :=
| Ok (a : A)
| Throw (e : exn).
Arguments Ok {A} a.
Arguments Throw {A} e.

Inductive EntryType : Type :=
| deposit_t | llm_usage | transfer_out | transfer_in | conversion.

#[global] Instance EntryType_eq_dec : EqDecision EntryType.
Proof. solve_decision. Defined.

Inductive Metadata : Type :=
| NoMetadata
| Counterparty (counterparty : Id)
| LlmUsage (provider model : string) (promptTokens completionTokens : num)
| Conversion (fromCurrency toCurrency : string)
             (fromAmount toAmount : num) (rateUsed : wide).

(** A journal entry, a document of the [transactions] collection. *)
Record Entry : Type := {
  accountId : Id;
  type : EntryType;
  currency : string;
  amount : num;
  balanceBefore : num;
  balanceAfter : num;
  description : string;
  metadata : Metadata
}.

(** An account document. A document without a [balances] field reads as one
    with the empty map ([data().balances || {}]), and an update of
    [balances.<c>] creates the map, so both are the empty [gmap] here. *)
Record Account : Type := {
  balances : gmap string num;
  status : string;
  email : string
}.

Record Store : Type := {
  accounts : gmap string Account;
  journal : list Entry
}.

(** The writes a transaction buffers. [Update uid fields] sets
    [balances.<c>] for each [(c, v)] of [fields] in [accounts/uid];
    [Create e] adds a document with a fresh id to [transactions]. *)
Inductive Write : Type :=
| Update (uid : string) (fields : list (string * num))
| Create (e : Entry).

Definition set_fields (fields : list (string * num)) (a : Account) : Account :=
  {| balances := foldl (fun b f => <[f.1 := f.2]> b) (balances a) fields;
     status := status a;
     email := email a |}.

(** An update of a document that does not exist makes the commit fail. *)
Definition apply_write (s : Store) (w : Write) : option Store :=
  match w with
  | Update uid fields =>
      match accounts s !! uid with
      | Some a => Some {| accounts := <[uid := set_fields fields a]> (accounts s);
                          journal := journal s |}
      | None => None
      end
  | Create e => Some {| accounts := accounts s; journal := journal s ++ [e] |}
  end.

Fixpoint apply_writes (s : Store) (ws : list Write) : option Store :=
  match ws with
  | [] => Some s
  | w :: ws' =>
      match apply_write s w with
      | Some s' => apply_writes s' ws'
      | None => None
      end
  end.

(** The body of a transaction: it reads the store, buffers writes, and may
    throw. *)
Definition Tx (A : Type) : Type :=
  Store -> list Write -> result (A * list Write).

#[global] Instance tx_ret : MRet Tx :=
  fun A a _ ws => Ok (a, ws).

#[global] Instance tx_bind : MBind Tx :=
  fun A B f m s ws =>
    match m s ws with
    | Ok (a, ws') => f a s ws'
    | Throw e => Throw e
    end.

Definition throw {A : Type} (e : exn) : Tx A := fun _ _ => Throw e.

(** [tx.get(db.doc(`accounts/${uid}`))]: [None] when [snap.exists] is false. *)
Definition tx_get (uid : string) : Tx (option Account) :=
  fun s ws => Ok (accounts s !! uid, ws).

Definition tx_update (uid : string) (fields : list (string * num)) : Tx unit :=
  fun _ ws => Ok (tt, ws ++ [Update uid fields]).

Definition tx_create (e : Entry) : Tx unit :=
  fun _ ws => Ok (tt, ws ++ [Create e]).

Definition COMMIT_FAILED : exn := Error "NOT_FOUND".

(** [db.runTransaction(body)]: all the writes, or none. *)
Definition runTransaction {A : Type} (body : Tx A) (s : Store)
  : result A * Store :=
  match body s [] with
  | Ok (a, ws) =>
      match apply_writes s ws with
      | Some s' => (Ok a, s')
      | None => (Throw COMMIT_FAILED, s)
      end
  | Throw e => (Throw e, s)
  end.

(** [(data().balances || {})[c] || 0] *)
Definition balance_of (a : Account) (c : string) : num :=
  or_zero (balances a !! c).

(** An HTTP reply. *)
Record Response (B : Type) : Type := { code : Z; body : B }.
Arguments code {B} r.
Arguments body {B} r.

Definition is_2xx (c : Z) : bool := (200 <=? c) && (c <? 300).

End Store.

Import Store.

#[global] Instance result_ret : MRet result := fun A a => Ok a.
#[global] Instance result_bind : MBind result :=
  fun A B f m => match m with Ok a => f a | Throw e => Throw e end.

(* ===================================================================== *)
(** * Cloud Functions: deposit, transfer, conversion                     *)
(* ===================================================================== *)

Module Functions.

Definition SUPPORTED : list string := ["USD"; "USDC"; "ETH"; "BTC"; "SOL"].

Definition UNITS : list (string * Z) :=
  [ ("USD", 1000000); ("USDC", 1000000); ("ETH", 1000000000);
    ("BTC", 100000000); ("SOL", 1000000000) ].

Definition EMPTY_BALANCES : gmap string num :=
  list_to_map (map (fun c => (c, of_Z 0)) SUPPORTED).

(** [SUPPORTED.includes(c)]. A currency that is not a string is included no
    more than an unknown string is, so the field is a string here. *)
Definition supported (c : string) : bool := existsb (String.eqb c) SUPPORTED.

(** The rate snapshot: USD price per whole unit. The program only multiplies
    and divides prices, so [rates c] is the number these operators make of
    [rates[c]]: [NaN] for a price that is missing or does not convert to a
    number. An infinite price reads as [NaN] too: the first use of a price,
    [BigInt(Math.round(rates[c] * 100))], throws on both alike. *)
Definition Rates : Type := string -> num.

(** ** Currency conversion (BigInt) *)

Definition NOT_AN_INTEGER : exn :=
  Error "RangeError: cannot be converted to a BigInt because it is not an integer".
Definition NOT_A_BIGINT : exn := Error "TypeError: Cannot convert to a BigInt".
Definition DIVISION_BY_ZERO : exn := Error "RangeError: Division by zero".

(** [BigInt(a)] for a number [a], and [BigInt(UNITS[c])]. *)
Definition BigInt (a : num) : result Z :=
  match toBigInt a with Some z => Ok z | None => Throw NOT_AN_INTEGER end.

Definition BigInt64 (a : wide) : result Z :=
  match toBigInt64 a with Some z => Ok z | None => Throw NOT_AN_INTEGER end.

Definition BigInt_unit (c : string) : result Z :=
  match get UNITS c with Own u => Ok u | _ => Throw NOT_A_BIGINT end.

(** Division of BigInts truncates toward zero and throws on a zero divisor. *)
Definition bigint_div (a b : Z) : result Z :=
  if b =? 0 then Throw DIVISION_BY_ZERO else Ok (Z.quot a b).

(** [Number(result)] is the BigInt itself as long as it is a double, which
    every integer up to 2^53 is; a larger one is rounded to the nearest
    double. The integer is returned as it is here, and what is stated of the
    returned amount is stated for amounts up to 2^53. *)
Definition convertCurrency (from to : string) (amount : num) (rates : Rates)
  : result num :=
  if String.eqb from to then Ok amount
  else
    fromCents ← BigInt64 (round64 (mul64 (rates from) (of_Z 100)));
    toCents ← BigInt64 (round64 (mul64 (rates to) (of_Z 100)));
    a ← BigInt amount;
    fromU ← BigInt_unit from;
    toU ← BigInt_unit to;
    r ← bigint_div (a * fromCents * toU) (fromU * toCents);
    Ok (of_Z r).

(** ** Requests and the environment *)

Record Env : Type := {
  (** [process.env.ADMIN_API_KEY] *)
  ADMIN_API_KEY : option string;
  (** [admin.auth().verifyIdToken]: the uid of a valid token. *)
  verify : string -> option string;
  (** [getExchangeRates()]: the quote, or the error it throws. *)
  getExchangeRates : result Rates
}.

(** A request. [amount] is [None] when the field is missing or not of type
    number, and a finite number otherwise. JSON has no [NaN], but a literal
    such as [1e999] is parsed to [Infinity], of type number and positive: an
    infinite amount has no counterpart here, and the statements on the
    handlers are about finite amounts. *)
Record Request (B : Type) : Type := {
  method : string;
  authorization : option string;
  x_admin_key : option string;
  payload : B
}.
Arguments method {B} r.
Arguments authorization {B} r.
Arguments x_admin_key {B} r.
Arguments payload {B} r.

Inductive Reply : Type :=
| ErrorReply (error : string)
| BalanceReply (currency : string) (balance : num)
| ConvertedReply (from : string) (amount : num) (to : string) (converted : num)
                 (balances : gmap string num).

Definition reply (c : Z) (b : Reply) : Response Reply := {| code := c; body := b |}.

(** [verifyIdToken(req, res)]: the uid, or the 401 it has sent. *)
Definition verifyIdToken {B : Type} (env : Env) (req : Request B)
  : Response Reply + string :=
  let hdr := default "" (authorization req) in
  if negb (String.prefix "Bearer " hdr) then
    inl (reply 401 (ErrorReply "Unauthorized"))
  else
    match verify env (String.substring 7 (String.length hdr - 7) hdr) with
    | Some uid => inr uid
    | None => inl (reply 401 (ErrorReply "Invalid token"))
    end.

(** [key && req.headers["x-admin-key"] === key], as a truth value. *)
Definition isAdmin {B : Type} (env : Env) (req : Request B) : bool :=
  match ADMIN_API_KEY env with
  | Some key => truthy_str key && bool_decide (x_admin_key req = Some key)
  | None => false
  end.

Definition UNSUPPORTED_CURRENCY : string :=
  "Unsupported currency. Use: USD,USDC,ETH,BTC,SOL".

(** ** Deposit (admin) *)

Record DepositBody : Type := {
  d_accountId : Id;
  d_amount : option Qc;
  d_currency : string
}.

Definition deposit_tx (accountId : Id) (amount : num) (currency : string)
  : Tx num :=
  snap ← tx_get (text accountId);
  match snap with
  | None => throw (Error "ACCOUNT_NOT_FOUND")
  | Some acct =>
      let cur := balance_of acct currency in
      let balAfter := add cur amount in
      _ ← tx_update (text accountId) [(currency, balAfter)];
      _ ← tx_create {| accountId := accountId;
                       type := deposit_t;
                       currency := currency;
                       amount := amount;
                       balanceBefore := cur;
                       balanceAfter := balAfter;
                       description := currency +:+ " deposit";
                       metadata := NoMetadata |};
      mret balAfter
  end.

(** The checks before the [try]: the reply of the one that fails, or the
    amount. *)
Definition deposit_checks (env : Env) (req : Request DepositBody)
  : Response Reply + Qc :=
  if negb (String.eqb (method req) "POST") then
    inl (reply 405 (ErrorReply "Use POST"))
  else if negb (isAdmin env req) then
    inl (reply 403 (ErrorReply "Forbidden"))
  else
    match d_amount (payload req) with
    | None => inl (reply 400 (ErrorReply "accountId and positive amount required"))
    | Some a =>
        if negb (truthy_id (d_accountId (payload req))) || le (Fin a) (of_Z 0)
        then inl (reply 400 (ErrorReply "accountId and positive amount required"))
        else if negb (supported (d_currency (payload req))) then
          inl (reply 400 (ErrorReply UNSUPPORTED_CURRENCY))
        else inr a
    end.

Definition deposit (env : Env) (req : Request DepositBody) (s : Store)
  : Response Reply * Store :=
  match deposit_checks env req with
  | inl r => (r, s)
  | inr a =>
      let accountId := d_accountId (payload req) in
      let currency := d_currency (payload req) in
      match runTransaction (deposit_tx accountId (Fin a) currency) s with
      | (Ok balAfter, s') => (reply 200 (BalanceReply currency balAfter), s')
      | (Throw err, s') =>
          if String.eqb (message err) "ACCOUNT_NOT_FOUND" then
            (reply 404 (ErrorReply "Account not found"), s')
          else
            (reply 500 (ErrorReply "Deposit failed"), s')
      end
  end.

(** ** Transfer *)

Record TransferBody : Type := {
  t_toAccountId : Id;
  t_amount : option Qc;
  t_currency : string;
  (** [""] when the field is missing *)
  t_description : string
}.

Definition transfer_tx (uid : string) (toAccountId : Id) (amount : num)
    (currency description : string) : Tx num :=
  sSnap ← tx_get uid;
  rSnap ← tx_get (text toAccountId);
  match sSnap with
  | None => throw (Error "SENDER_NOT_FOUND")
  | Some sAcct =>
      match rSnap with
      | None => throw (Error "RECIPIENT_NOT_FOUND")
      | Some rAcct =>
          let sBal := balance_of sAcct currency in
          if lt sBal amount then throw (Error "INSUFFICIENT_FUNDS")
          else
            let rBal := balance_of rAcct currency in
            let senderAfter := sub sBal amount in
            _ ← tx_update uid [(currency, senderAfter)];
            _ ← tx_update (text toAccountId) [(currency, add rBal amount)];
            let desc := if truthy_str description then description
                        else "Transfer" in
            _ ← tx_create {| accountId := Str uid;
                             type := transfer_out;
                             currency := currency;
                             amount := amount;
                             balanceBefore := sBal;
                             balanceAfter := senderAfter;
                             description := desc;
                             metadata := Counterparty toAccountId |};
            _ ← tx_create {| accountId := toAccountId;
                             type := transfer_in;
                             currency := currency;
                             amount := amount;
                             balanceBefore := rBal;
                             balanceAfter := add rBal amount;
                             description := desc;
                             metadata := Counterparty (Str uid) |};
            mret senderAfter
      end
  end.

(** The checks before the [try]: the reply of the one that fails, or the
    sender and the amount. *)
Definition transfer_checks (env : Env) (req : Request TransferBody)
  : Response Reply + (string * Qc) :=
  if negb (String.eqb (method req) "POST") then
    inl (reply 405 (ErrorReply "Use POST"))
  else
    match verifyIdToken env req with
    | inl r => inl r
    | inr uid =>
        match t_amount (payload req) with
        | None =>
            inl (reply 400 (ErrorReply "toAccountId and positive amount required"))
        | Some a =>
            if negb (truthy_id (t_toAccountId (payload req)))
               || le (Fin a) (of_Z 0) then
              inl (reply 400
                     (ErrorReply "toAccountId and positive amount required"))
            else if negb (supported (t_currency (payload req))) then
              inl (reply 400 (ErrorReply UNSUPPORTED_CURRENCY))
            else if same (t_toAccountId (payload req)) uid then
              inl (reply 400 (ErrorReply "Cannot transfer to yourself"))
            else inr (uid, a)
        end
    end.

Definition transfer (env : Env) (req : Request TransferBody) (s : Store)
  : Response Reply * Store :=
  match transfer_checks env req with
  | inl r => (r, s)
  | inr (uid, a) =>
      let currency := t_currency (payload req) in
      match runTransaction
              (transfer_tx uid (t_toAccountId (payload req)) (Fin a) currency
                 (t_description (payload req))) s with
      | (Ok senderAfter, s') =>
          (reply 200 (BalanceReply currency senderAfter), s')
      | (Throw err, s') =>
          if String.eqb (message err) "INSUFFICIENT_FUNDS" then
            (reply 402 (ErrorReply "Insufficient funds"), s')
          else if String.eqb (message err) "RECIPIENT_NOT_FOUND" then
            (reply 404 (ErrorReply "Recipient account not found"), s')
          else
            (reply 500 (ErrorReply "Transfer failed"), s')
      end
  end.

(** ** Convert *)

Record ConvertBody : Type := {
  c_from : string;
  c_to : string;
  c_amount : option Qc
}.

Definition convert_tx (uid from to : string) (amount converted : num)
    (rates : Rates) : Tx (gmap string num) :=
  snap ← tx_get uid;
  match snap with
  | None => throw (Error "ACCOUNT_NOT_FOUND")
  | Some acct =>
      let bals := Store.balances acct in
      let fromBal := balance_of acct from in
      if lt fromBal amount then throw (Error "INSUFFICIENT_FUNDS")
      else
        let toBal := balance_of acct to in
        let balances :=
          <[to := add toBal converted]> (<[from := sub fromBal amount]> bals) in
        _ ← tx_update uid [(from, sub fromBal amount);
                           (to, add toBal converted)];
        _ ← tx_create {| accountId := Str uid;
                         type := conversion;
                         currency := from;
                         amount := amount;
                         balanceBefore := fromBal;
                         balanceAfter := sub fromBal amount;
                         description := "Convert " +:+ from +:+ " → " +:+ to;
                         metadata :=
                           Conversion from to amount converted
                             (div64 (rates from) (rates to)) |};
        mret balances
  end.

(** The checks before the rates are fetched: the reply of the one that
    fails, or the account and the amount. *)
Definition convert_checks (env : Env) (req : Request ConvertBody)
  : Response Reply + (string * Qc) :=
  if negb (String.eqb (method req) "POST") then
    inl (reply 405 (ErrorReply "Use POST"))
  else
    match verifyIdToken env req with
    | inl r => inl r
    | inr uid =>
        let from := c_from (payload req) in
        let to := c_to (payload req) in
        match c_amount (payload req) with
        | None =>
            inl (reply 400 (ErrorReply "from, to, and positive amount required"))
        | Some a =>
            if negb (truthy_str from) || negb (truthy_str to)
               || le (Fin a) (of_Z 0) then
              inl (reply 400
                     (ErrorReply "from, to, and positive amount required"))
            else if String.eqb from to then
              inl (reply 400 (ErrorReply "Cannot convert to same currency"))
            else if negb (supported from) || negb (supported to) then
              inl (reply 400
                     (ErrorReply "Unsupported. Use: USD,USDC,ETH,BTC,SOL"))
            else inr (uid, a)
        end
    end.

(** The handler is an async function: an error thrown outside its [try]
    rejects the promise without any reply of the handler, [Throw] below. *)
Definition convert (env : Env) (req : Request ConvertBody) (s : Store)
  : result (Response Reply) * Store :=
  match convert_checks env req with
  | inl r => (Ok r, s)
  | inr (uid, a) =>
      let from := c_from (payload req) in
      let to := c_to (payload req) in
      let amount := Fin a in
      match getExchangeRates env with
      | Throw e => (Throw e, s)
      | Ok rates =>
          match convertCurrency from to amount rates with
          | Throw e => (Throw e, s)
          | Ok converted =>
              if le converted (of_Z 0) then
                (Ok (reply 400 (ErrorReply "Amount too small to convert")), s)
              else
                match runTransaction
                        (convert_tx uid from to amount converted rates) s with
                | (Ok balances, s') =>
                    (Ok (reply 200
                           (ConvertedReply from amount to converted balances)),
                     s')
                | (Throw err, s') =>
                    if String.eqb (message err) "INSUFFICIENT_FUNDS" then
                      (Ok (reply 402 (ErrorReply "Insufficient funds")), s')
                    else
                      (Ok (reply 500 (ErrorReply "Conversion failed")), s')
                end
          end
      end
  end.

End Functions.

(* ===================================================================== *)
(** * Proxy: providers and the Anthropic translation                     *)
(* ===================================================================== *)

Module Proxy.

Inductive ProviderName : Type := openai | anthropic | google | mistral | together.

#[global] Instance ProviderName_eq_dec : EqDecision ProviderName.
Proof. solve_decision. Defined.

Definition name (p : ProviderName) : string :=
  match p with
  | openai => "openai" | anthropic => "anthropic" | google => "google"
  | mistral => "mistral" | together => "together"
  end.

Record Provider : Type := {
  baseUrl : string;
  secret : string;
  headers : string -> list (string * string);
  translate : bool
}.

Definition bearer (k : string) : list (string * string) :=
  [("Authorization", "Bearer " +:+ k)].

Definition PROVIDERS (p : ProviderName) : Provider :=
  match p with
  | openai =>
      {| baseUrl := "https://api.openai.com/v1/chat/completions";
         secret := "OPENAI_API_KEY"; headers := bearer; translate := false |}
  | anthropic =>
      {| baseUrl := "https://api.anthropic.com/v1/messages";
         secret := "ANTHROPIC_API_KEY";
         headers := fun k => [("x-api-key", k);
                              ("anthropic-version", "2023-06-01");
                              ("Content-Type", "application/json")];
         translate := true |}
  | google =>
      {| baseUrl := "https://generativelanguage.googleapis.com/v1beta/openai/chat/completions";
         secret := "GOOGLE_API_KEY"; headers := bearer; translate := false |}
  | mistral =>
      {| baseUrl := "https://api.mistral.ai/v1/chat/completions";
         secret := "MISTRAL_API_KEY"; headers := bearer; translate := false |}
  | together =>
      {| baseUrl := "https://api.together.xyz/v1/chat/completions";
         secret := "TOGETHER_API_KEY"; headers := bearer; translate := false |}
  end.

Definition detectProvider (model : string) : ProviderName :=
  if String.prefix "gpt-" model || String.prefix "o1" model
     || String.prefix "o3" model || String.prefix "o4" model then openai
  else if String.prefix "claude-" model then anthropic
  else if String.prefix "gemini-" model then google
  else if String.prefix "mistral-" model then mistral
  else together.

(** ** Canonical (OpenAI) shapes *)

Record Message : Type := { role : string; content : string }.

Inductive Stop : Type :=
| StopString (s : string)
| StopArray (l : list string).

(** The body of a chat-completions request. [model] is [""] when the field is
    missing; [tools] tells whether a truthy [tools] field is present. *)
Record ChatRequest : Type := {
  model : string;
  messages : list Message;
  max_tokens : option Qc;
  temperature : option Qc;
  top_p : option Qc;
  stop : option Stop;
  tools : bool
}.

(** The usage object of a response. A token count is a number of the JSON
    text, or is missing; JSON has no NaN, and [NaN] stands for a count that
    is missing ([undefined]), which is what the arithmetic makes of it. *)
Record Usage : Type := {
  prompt_tokens : num;
  completion_tokens : num;
  total_tokens : num
}.

(** [v === undefined] for a token count [v]. *)
Definition absent (v : num) : bool :=
  match v with NaN => true | Fin _ => false end.

Record Choice : Type := {
  ch_index : Z;
  ch_message : Message;
  ch_finish_reason : property string
}.

(** A completion, without its [created] timestamp. A token count that is
    missing or not a number reads as [NaN]. *)
Record ChatCompletion : Type := {
  cc_id : string;
  cc_model : string;
  cc_choices : list Choice;
  cc_usage : Usage
}.

(** ** Anthropic shapes *)

Record AnthropicRequest : Type := {
  ar_model : string;
  ar_messages : list Message;
  ar_max_tokens : property Qc;
  ar_system : option string;
  ar_temperature : option Qc;
  ar_top_p : option Qc;
  ar_stop_sequences : option (list string)
}.

Record Block : Type := { b_type : string; b_text : string }.

Record AnthropicResponse : Type := {
  am_id : string;
  am_model : string;
  am_content : list Block;
  am_stop_reason : string;
  am_input_tokens : num;
  am_output_tokens : num
}.

Definition ANTHROPIC_MAX_TOKENS : list (string * Z) :=
  [ ("claude-sonnet-4-20250514", 8192);
    ("claude-opus-4-20250514", 8192);
    ("claude-haiku-4-20250414", 8192);
    ("claude-3-5-sonnet-20241022", 8192);
    ("claude-3-5-haiku-20241022", 8192) ].

(** The newline ["\n"]. *)
Definition NL : string := String (Ascii.ascii_of_nat 10) "".

(** One turn of the loop over [messages]; the state is [system] and
    [filtered]. A merge rewrites the last element of [filtered] in place;
    that element was built by the loop, so no message of the request is
    changed. *)
Definition truthy_opt (s : option string) : bool :=
  match s with Some x => truthy_str x | None => false end.

Definition step (st : option string * list Message) (m : Message)
  : option string * list Message :=
  let (system, filtered) := st in
  if String.eqb (role m) "system" then
    (Some (if truthy_opt system
           then default "" system +:+ NL +:+ content m
           else content m),
     filtered)
  else
    match last filtered with
    | Some l =>
        if String.eqb (role l) (role m) then
          (system,
           removelast filtered
             ++ [{| role := role l; content := content l +:+ NL +:+ content m |}])
        else
          (system, filtered ++ [{| role := role m; content := content m |}])
    | None =>
        (system, filtered ++ [{| role := role m; content := content m |}])
    end.

Definition truthy_stop (s : option Stop) : bool :=
  match s with
  | Some (StopString x) => truthy_str x
  | Some (StopArray _) => true
  | None => false
  end.

(** [max_tokens || ANTHROPIC_MAX_TOKENS[model] || 4096] *)
Definition default_max_tokens (model : string) : property Qc :=
  match get ANTHROPIC_MAX_TOKENS model with
  | Own z => if truthy (of_Z z) then Own (Qc_of_Z z) else Own (Qc_of_Z 4096)
  | Inherited k => Inherited k
  | Undefined => Own (Qc_of_Z 4096)
  end.

Definition toAnthropicRequest (body : ChatRequest) : AnthropicRequest :=
  let (system, filtered) := foldl step (None, []) (messages body) in
  {| ar_model := model body;
     ar_messages := filtered;
     ar_max_tokens :=
       match max_tokens body with
       | Some n => if truthy (Fin n) then Own n
                   else default_max_tokens (model body)
       | None => default_max_tokens (model body)
       end;
     ar_system := if truthy_opt system then system else None;
     ar_temperature := temperature body;
     ar_top_p := top_p body;
     ar_stop_sequences :=
       if truthy_stop (stop body) then
         match stop body with
         | Some (StopArray l) => Some l
         | Some (StopString x) => Some [x]
         | None => None
         end
       else None |}.

Definition STOP_REASON_MAP : list (string * string) :=
  [ ("end_turn", "stop"); ("max_tokens", "length");
    ("stop_sequence", "stop"); ("tool_use", "tool_calls") ].

Definition fromAnthropicResponse (data : AnthropicResponse) : ChatCompletion :=
  {| cc_id := am_id data;
     cc_model := am_model data;
     cc_choices :=
       [ {| ch_index := 0;
            ch_message :=
              {| role := "assistant";
                 content :=
                   foldr String.append ""
                     (map b_text
                        (filter (fun c => b_type c = "text") (am_content data)))
              |};
            ch_finish_reason :=
              or_else (get STOP_REASON_MAP (am_stop_reason data))
                      (Own (am_stop_reason data)) |} ];
     cc_usage :=
       {| prompt_tokens := am_input_tokens data;
          completion_tokens := am_output_tokens data;
          total_tokens := add (am_input_tokens data) (am_output_tokens data) |}
  |}.

(** ** The chat-completions handler *)

Record Env : Type := {
  (** [admin.auth().verifyIdToken]: the uid of a valid token. *)
  verify : string -> option string;
  (** [getApiKey(secretName)] *)
  getApiKey : string -> result string;
  (** [axios.post] to a provider that speaks the canonical format, and to
      Anthropic: the reply's [data], or the error thrown (with [response]
      set when the provider answered with an error status). *)
  post_chat :
    string -> list (string * string) -> ChatRequest -> result ChatCompletion;
  post_messages :
    string -> list (string * string) -> AnthropicRequest
    -> result AnthropicResponse
}.

Record Request : Type := {
  authorization : option string;
  payload : ChatRequest
}.

(** The reply: an error envelope, or the completion with the three billing
    headers (cost, balance after, provider). *)
Inductive Reply : Type :=
| ErrorReply (error : string)
| UpstreamError (error detail : string)
| Completion (result : ChatCompletion) (cost_micros balance_micros : num)
             (provider : string).

Definition reply (c : Z) (b : Reply) : Response Reply := {| code := c; body := b |}.

Definition authenticate (env : Env) (req : Request) : Response Reply + string :=
  let hdr := default "" (authorization req) in
  if negb (String.prefix "Bearer " hdr) then
    inl (reply 401 (ErrorReply "Missing Authorization header"))
  else
    match verify env (String.substring 7 (String.length hdr - 7) hdr) with
    | Some uid => inr uid
    | None => inl (reply 401 (ErrorReply "Invalid or expired token"))
    end.

(** What the handler holds when it is about to call the provider. *)
Record Accepted : Type := {
  uid : string;
  providerName : ProviderName;
  apiKey : string
}.

(** Everything before the upstream call; [s] is the store read by the
    pre-check. *)
Definition accept (env : Env) (req : Request) (s : Store)
  : Response Reply + Accepted :=
  match authenticate env req with
  | inl r => inl r
  | inr uid =>
      let model := model (payload req) in
      if negb (truthy_str model) then
        inl (reply 400 (ErrorReply "model is required"))
      else
        let providerName := detectProvider model in
        if bool_decide (providerName = anthropic) && tools (payload req) then
          inl (reply 400
                 (ErrorReply "Tool use with Claude models is not yet supported through the proxy"))
        else
          match accounts s !! uid with
          | None => inl (reply 404 (ErrorReply "Account not found"))
          | Some acct =>
              if lt (balance_of acct "USD")
                    (of_Z Pricing.MIN_BALANCE_MICROS) then
                inl (reply 402
                       (ErrorReply "Insufficient USD balance. Convert or deposit USD first."))
              else
                match getApiKey env (secret (PROVIDERS providerName)) with
                | Throw _ =>
                    inl (reply 503
                           (ErrorReply (name providerName +:+ " is not configured")))
                | Ok apiKey =>
                    inr {| uid := uid; providerName := providerName;
                           apiKey := apiKey |}
                end
          end
  end.

(** The upstream call with the translations around it: the canonical
    result, or the error thrown. *)
Definition callProvider (env : Env) (req : Request) (a : Accepted)
  : result ChatCompletion :=
  let provider := PROVIDERS (providerName a) in
  if translate provider then
    data ← post_messages env (baseUrl provider) (headers provider (apiKey a))
             (toAnthropicRequest (payload req));
    Ok (fromAnthropicResponse data)
  else
    post_chat env (baseUrl provider) (headers provider (apiKey a)) (payload req).

Definition costOf (result : ChatCompletion) : num :=
  Pricing.calculateCostMicros (cc_model result)
    (prompt_tokens (cc_usage result)) (completion_tokens (cc_usage result)).

Definition TYPE_ERROR : exn :=
  Error "TypeError: Cannot read properties of undefined (reading 'balances')".

(** The error of [tx.create] on a document with a field that is
    [undefined]: the database is opened without [ignoreUndefinedProperties],
    and the client library refuses such a value when the write is
    buffered. *)
Definition UNDEFINED_VALUE : exn :=
  Error "Cannot use undefined as a Firestore value".

(** The debit transaction. [snap.data()] is [undefined] when the account is
    gone, and reading [balances] of it throws. The journal entry carries the
    two token counts of the response: when one is missing, [tx.create]
    throws, after the update was buffered, and nothing is written. A cost or
    a balance that is NaN is a number, and is written. *)
Definition debit_tx (a : Accepted) (result : ChatCompletion) (costMicros : num)
  : Tx num :=
  snap ← tx_get (uid a);
  match snap with
  | None => throw TYPE_ERROR
  | Some acct =>
      let current := balance_of acct "USD" in
      if lt current costMicros then throw (Error "INSUFFICIENT_FUNDS")
      else
        let balanceAfter := sub current costMicros in
        _ ← tx_update (uid a) [("USD", balanceAfter)];
        _ ← (if absent (prompt_tokens (cc_usage result))
                || absent (completion_tokens (cc_usage result))
             then throw UNDEFINED_VALUE else mret tt);
        _ ← tx_create {| accountId := Str (uid a);
                         type := llm_usage;
                         currency := "USD";
                         amount := costMicros;
                         balanceBefore := current;
                         balanceAfter := balanceAfter;
                         description := cc_model result +:+ " completion";
                         metadata :=
                           LlmUsage (name (providerName a)) (cc_model result)
                             (prompt_tokens (cc_usage result))
                             (completion_tokens (cc_usage result)) |};
        mret balanceAfter
  end.

(** The [catch] of the handler. *)
Definition onError (p : ProviderName) (e : exn) : Response Reply :=
  if String.eqb (message e) "INSUFFICIENT_FUNDS" then
    reply 402 (ErrorReply "Insufficient USD balance")
  else
    match response e with
    | Some (st, detail) => reply st (UpstreamError (name p +:+ " API error") detail)
    | None => reply 500 (ErrorReply "Internal error")
    end.

(** [POST /v1/chat/completions]. [s_pre] is the store the pre-check reads and
    [s_tx] the store on which the debit transaction runs: other requests may
    have committed between the two. *)
Definition chatCompletions (env : Env) (req : Request) (s_pre s_tx : Store)
  : Response Reply * Store :=
  match accept env req s_pre with
  | inl r => (r, s_tx)
  | inr a =>
      match callProvider env req a with
      | Throw e => (onError (providerName a) e, s_tx)
      | Ok result =>
          let costMicros := costOf result in
          match runTransaction (debit_tx a result costMicros) s_tx with
          | (Ok balanceAfter, s') =>
              (reply 200
                 (Completion result costMicros balanceAfter
                    (name (providerName a))), s')
          | (Throw e, s') => (onError (providerName a) e, s')
          end
      end
  end.

End Proxy.

(* ===================================================================== *)
(** * The specification's vocabulary                                      *)
(* ===================================================================== *)

Module Spec.

Import Functions Proxy.

(** ** Balances *)

Definition nonneg (n : num) : Prop :=
  match n with Fin q => (Qc_of_Z 0 <= q)%Qc | NaN => False end.

#[global] Instance nonneg_dec (n : num) : Decision (nonneg n).
Proof. destruct n; simpl; apply _. Defined.

Definition integral (n : num) : Prop := isInteger n = true.

(** Every stored balance of every account satisfies [P]. *)
Definition all_balances (P : num -> Prop) (s : Store) : Prop :=
  map_Forall (fun _ acct => map_Forall (fun _ v => P v) (balances acct))
             (accounts s).

(** "The stored balance is a non-negative integer." *)
Definition balance_invariant (s : Store) : Prop :=
  all_balances (fun v => nonneg v /\ integral v) s.

(** ** The range in which the doubles are exact

    The numbers of JavaScript are IEEE doubles. A sum, a difference or a
    product of integers is the exact one as long as the operands and the
    exact result are integers of magnitude at most [2^53]; beyond, the
    result is rounded, and past [1.8 * 10^308] it is an infinity. The
    arithmetic of [JS.num] is the exact one, so a theorem that depends on
    the value of a sum, a difference or a product states that the numbers
    involved are in this range. *)
Definition MAX_EXACT : Z := 2 ^ 53.

Definition bounded (n : num) : Prop := le n (of_Z MAX_EXACT) = true.

(** A non-negative integer of the exact range. *)
Definition exact (n : num) : Prop := integral n /\ nonneg n /\ bounded n.

#[global] Instance exact_dec (n : num) : Decision (exact n).
Proof. unfold exact, integral, bounded. apply _. Defined.

(** The sum that [calculateCostMicros] divides by a million. *)
Definition weighted (model : string) (promptTokens completionTokens : num) : num :=
  let p := or_else (get Pricing.PRICING model) (Own Pricing.DEFAULT_PRICING) in
  add (mul promptTokens (Pricing.p_input p))
      (mul completionTokens (Pricing.p_output p)).

(** A usage whose cost is computed within the exact range: whole token
    counts, and a weighted sum of at most 2^53. The two products are then
    whole numbers below the sum, and the quotient by a million, a number
    below 2^34, is rounded by less than a millionth, which leaves its
    ceiling where it is. *)
Definition exact_usage (model : string) (promptTokens completionTokens : num)
  : Prop :=
  exact promptTokens /\ exact completionTokens /\
  bounded (weighted model promptTokens completionTokens).

#[global] Instance exact_usage_dec model p c : Decision (exact_usage model p c).
Proof. unfold exact_usage. apply _. Defined.

(** ** Conversion *)

(** [Math.round(rates[c] * 100)] as a BigInt, when it is one: the product is
    the rounded one of the doubles. *)
Definition cents (rates : Rates) (c : string) : option Z :=
  toBigInt64 (round64 (mul64 (rates c) (of_Z 100))).

(** The smallest-unit factor of a currency. *)
Definition unit_of (c : string) : Z := default 0 (assoc c UNITS).

(** [(amount * from_cents * u_to) / (u_from * to_cents)], integer division as
    BigInt does it (the quotient is truncated). *)
Definition converted_spec (from to : string) (amount fromCents toCents : Z) : Z :=
  Z.quot (amount * fromCents * unit_of to) (unit_of from * toCents).

(** ** Anthropic translation *)

(** [l.join(sep)] *)
Fixpoint join (sep : string) (l : list string) : string :=
  match l with
  | [] => ""
  | [x] => x
  | x :: l' => x +:+ sep +:+ join sep l'
  end.

Definition is_system (m : Message) : bool := String.eqb (role m) "system".

Definition system_contents (msgs : list Message) : list string :=
  map content (List.filter is_system msgs).

Definition remaining (msgs : list Message) : list Message :=
  List.filter (fun m => negb (is_system m)) msgs.

(** "The contents of all messages with role system are concatenated with a
    newline." *)
Definition system_spec (msgs : list Message) : string :=
  join NL (system_contents msgs).

(** The contents that are left once the leading empty ones are dropped. *)
Fixpoint drop_empty (l : list string) : list string :=
  match l with
  | [] => []
  | x :: l' => if String.eqb x "" then drop_empty l' else l
  end.

(** "Adjacent messages with the same role are coalesced by concatenating
    their content with a newline." *)
Fixpoint coalesce (l : list Message) : list Message :=
  match l with
  | [] => []
  | m :: l' =>
      match coalesce l' with
      | [] => [m]
      | h :: r =>
          if String.eqb (role m) (role h) then
            {| role := role m; content := content m +:+ NL +:+ content h |} :: r
          else m :: h :: r
      end
  end.

(** ** Journal entries

    The entries the specification expects from each operation, for an
    account whose balance in the currency reads [cur] (or [sBal], [rBal]). *)

Definition deposit_entry (accountId : Id) (currency : string)
    (cur amount : num) : Entry :=
  {| accountId := accountId; type := deposit_t; currency := currency;
     amount := amount; balanceBefore := cur; balanceAfter := add cur amount;
     description := currency +:+ " deposit"; metadata := NoMetadata |}.

Definition desc_of (description : string) : string :=
  if truthy_str description then description else "Transfer".

Definition transfer_out_entry (sender : string) (recipient : Id)
    (currency : string) (sBal amount : num) (description : string) : Entry :=
  {| accountId := Str sender; type := transfer_out; currency := currency;
     amount := amount; balanceBefore := sBal; balanceAfter := sub sBal amount;
     description := desc_of description;
     metadata := Counterparty recipient |}.

Definition transfer_in_entry (sender : string) (recipient : Id)
    (currency : string) (rBal amount : num) (description : string) : Entry :=
  {| accountId := recipient; type := transfer_in; currency := currency;
     amount := amount; balanceBefore := rBal; balanceAfter := add rBal amount;
     description := desc_of description;
     metadata := Counterparty (Str sender) |}.

Definition conversion_entry (uid from to : string)
    (fromBal amount converted : num) (rates : Rates) : Entry :=
  {| accountId := Str uid; type := conversion; currency := from;
     amount := amount; balanceBefore := fromBal;
     balanceAfter := sub fromBal amount;
     description := "Convert " +:+ from +:+ " → " +:+ to;
     metadata := Conversion from to amount converted
                   (div64 (rates from) (rates to)) |}.

Definition llm_usage_entry (uid provider : string) (result : ChatCompletion)
    (current cost : num) : Entry :=
  {| accountId := Str uid; type := llm_usage; currency := "USD";
     amount := cost; balanceBefore := current;
     balanceAfter := sub current cost;
     description := cc_model result +:+ " completion";
     metadata := LlmUsage provider (cc_model result)
                   (prompt_tokens (cc_usage result))
                   (completion_tokens (cc_usage result)) |}.

(** The store after [fields] of [balances] are set in [accounts/uid] and the
    entries [es] are appended to the journal. *)
Definition commit (s : Store) (uid : string) (acct : Account)
    (fields : list (string * num)) (es : list Entry) : Store :=
  {| accounts := <[uid := set_fields fields acct]> (accounts s);
     journal := journal s ++ es |}.

(** The store after a transfer of [amount] from [sender], whose account reads
    [sAcct], to [recipient], whose account reads [rAcct]. The two updates are
    applied in order: when [recipient] names the document of [sender], the
    second one is applied to that document as the first one left it. *)
Definition transferred (s : Store) (sender : string) (recipient : Id)
    (currency : string) (amount : num) (description : string)
    (sAcct rAcct : Account) : Store :=
  let sBal := balance_of sAcct currency in
  let rBal := balance_of rAcct currency in
  let sAcct' := set_fields [(currency, sub sBal amount)] sAcct in
  let rDoc := if decide (text recipient = sender) then sAcct' else rAcct in
  {| accounts :=
       <[text recipient := set_fields [(currency, add rBal amount)] rDoc]>
         (<[sender := sAcct']> (accounts s));
     journal :=
       journal s
         ++ [ transfer_out_entry sender recipient currency sBal amount description;
              transfer_in_entry sender recipient currency rBal amount description ]
  |}.

(** The two halves of a turn of the loop of [toAnthropicRequest]: what it
    does to [system] on a system message, and to [filtered] on another. *)
Definition sys_step (system : option string) (c : string) : option string :=
  Some (if truthy_opt system then default "" system +:+ NL +:+ c else c).

Definition msg_step (filtered : list Message) (m : Message) : list Message :=
  match last filtered with
  | Some l =>
      if String.eqb (role l) (role m) then
        removelast filtered
          ++ [{| role := role l; content := content l +:+ NL +:+ content m |}]
      else filtered ++ [{| role := role m; content := content m |}]
  | None => filtered ++ [{| role := role m; content := content m |}]
  end.

(** "[max_tokens] is the caller's value if present, else the per-model
    default, else 4096", a zero counting as absent. *)
Definition max_tokens_spec (body : ChatRequest) : Qc :=
  let table := Qc_of_Z (default 4096 (assoc (model body) ANTHROPIC_MAX_TOKENS)) in
  match max_tokens body with
  | Some n => if bool_decide (n = Qc_of_Z 0) then table else n
  | None => table
  end.

(** "[stop] (string or array) is renamed to [stop_sequences], always an
    array", the empty string counting as absent. *)
Definition stop_sequences_spec (body : ChatRequest) : option (list string) :=
  match stop body with
  | Some (StopArray l) => Some l
  | Some (StopString x) => if String.eqb x "" then None else Some [x]
  | None => None
  end.

End Spec.

Import Spec.

(* ===================================================================== *)
(** * Sample data                                                         *)
(* ===================================================================== *)

Module Samples.

Import Functions.

Definition account (usd : Z) (mail : string) : Account :=
  {| balances := <["USD" := of_Z usd]> EMPTY_BALANCES;
     status := "active"; email := mail |}.

(** Agent A holds 5 USD, agent B nothing. *)
Definition store0 : Store :=
  {| accounts :=
       <["agent-a" := account 5000000 "a@often.ai"]>
         (<["agent-b" := account 0 "b@often.ai"]> ∅);
     journal := [] |}.



(** The rates of the unit tests. *)
Definition rates0 : Rates := fun c =>
  if String.eqb c "USD" then of_Z 1
  else if String.eqb c "USDC" then of_Z 1
  else if String.eqb c "ETH" then of_Z 3500
  else if String.eqb c "BTC" then of_Z 65000
  else if String.eqb c "SOL" then of_Z 150
  else NaN.

(** A quote in which the price of ETH is missing, as [getExchangeRates] builds
    it when the oracle's reply has an [ethereum] entry without [usd]. *)
Definition rates_no_eth : Rates := fun c =>
  if String.eqb c "ETH" then NaN else rates0 c.

(** A snapshot in which SOL is worth a tenth of a cent: the double nearest
    to 0.001. *)
Definition rates_small : Rates := fun c =>
  if String.eqb c "SOL"
  then Fin (Q2Qc (1152921504606847 # 1152921504606846976))
  else rates0 c.

(** A snapshot in which USDC is worth 1.115 USD: the double nearest to it,
    which is a little below. *)
Definition rates_usdc : Rates := fun c =>
  if String.eqb c "USDC"
  then Fin (Q2Qc (5021513584518103 # 4503599627370496))
  else rates0 c.

Definition env0 : Env :=
  {| ADMIN_API_KEY := Some "secret-admin-key";
     verify := fun t => if String.eqb t "token-a" then Some "agent-a" else None;
     getExchangeRates := Ok rates0 |}.

Definition admin_post {B : Type} (key : string) (b : B) : Request B :=
  {| method := "POST"; authorization := None; x_admin_key := Some key;
     payload := b |}.

Definition agent_post {B : Type} (b : B) : Request B :=
  {| method := "POST"; authorization := Some "Bearer token-a";
     x_admin_key := None; payload := b |}.

Definition deposit_body (a : Qc) : DepositBody :=
  {| d_accountId := Str "agent-b"; d_amount := Some a; d_currency := "USD" |}.

Definition transfer_body (a : Qc) : TransferBody :=
  {| t_toAccountId := Str "agent-b"; t_amount := Some a; t_currency := "USD";
     t_description := "" |}.

Definition convert_body (from to : string) (a : Qc) : ConvertBody :=
  {| c_from := from; c_to := to; c_amount := Some a |}.

(** *** The proxy

    The provider is stubbed as in the payload-manipulation test: whatever
    model the request names, it answers as gpt-4o with 100 prompt and 50
    completion tokens. *)

Definition completion0 : Proxy.ChatCompletion :=
  {| Proxy.cc_id := "chatcmpl-1";
     Proxy.cc_model := "gpt-4o";
     Proxy.cc_choices :=
       [ {| Proxy.ch_index := 0;
            Proxy.ch_message :=
              {| Proxy.role := "assistant"; Proxy.content := "Hello" |};
            Proxy.ch_finish_reason := Own "stop" |} ];
     Proxy.cc_usage :=
       {| Proxy.prompt_tokens := of_Z 100;
          Proxy.completion_tokens := of_Z 50;
          Proxy.total_tokens := of_Z 150 |} |}.

Definition message0 : Proxy.AnthropicResponse :=
  {| Proxy.am_id := "msg_123";
     Proxy.am_model := "claude-sonnet-4-20250514";
     Proxy.am_content := [ {| Proxy.b_type := "text"; Proxy.b_text := "Hello" |} ];
     Proxy.am_stop_reason := "end_turn";
     Proxy.am_input_tokens := of_Z 10;
     Proxy.am_output_tokens := of_Z 5 |}.

Definition proxy_env0 : Proxy.Env :=
  {| Proxy.verify :=
       fun t => if String.eqb t "token-a" then Some "agent-a" else None;
     Proxy.getApiKey := fun _ => Ok "sk-test";
     Proxy.post_chat := fun _ _ _ => Ok completion0;
     Proxy.post_messages := fun _ _ _ => Ok message0 |}.

Definition chat_body (m : string) (msgs : list Proxy.Message)
  : Proxy.ChatRequest :=
  {| Proxy.model := m; Proxy.messages := msgs; Proxy.max_tokens := None;
     Proxy.temperature := None; Proxy.top_p := None; Proxy.stop := None;
     Proxy.tools := false |}.

Definition chat_req0 : Proxy.Request :=
  {| Proxy.authorization := Some "Bearer token-a";
     Proxy.payload :=
       chat_body "gpt-3.5-turbo"
         [ {| Proxy.role := "user"; Proxy.content := "Hi" |} ] |}.

(** Agent A is left with 500 micros: less than the cost of [completion0]. *)
Definition store_low : Store :=
  {| accounts := <["agent-a" := account 500 "a@often.ai"]> ∅; journal := [] |}.

(** Scenario S5 and the request with an empty first system message. *)
Definition body_S5 : Proxy.ChatRequest :=
  chat_body "claude-sonnet-4-20250514"
    [ {| Proxy.role := "system"; Proxy.content := "You are helpful." |};
      {| Proxy.role := "user"; Proxy.content := "Part 1" |};
      {| Proxy.role := "user"; Proxy.content := "Part 2" |} ].

Definition body_empty_system : Proxy.ChatRequest :=
  chat_body "claude-sonnet-4-20250514"
    [ {| Proxy.role := "system"; Proxy.content := "" |};
      {| Proxy.role := "system"; Proxy.content := "Be brief." |};
      {| Proxy.role := "user"; Proxy.content := "Hi" |} ].

(** The conversion of half a micro-dollar to ETH. *)
Definition convert_half : Request ConvertBody :=
  agent_post (convert_body "USD" "ETH" (Q2Qc (1 # 2))).

(** The half micro-dollar deposit. *)
Definition deposit_half : Request DepositBody :=
  admin_post "secret-admin-key" (deposit_body (Q2Qc (1 # 2))).

End Samples.

(* ===================================================================== *)
(** * Regular expressions                                                 *)
(* ===================================================================== *)

(** The regular expressions of the sources, matched by derivatives, and the
    language they denote. *)
Module Regex.

Section Re.

Context {C : Type}.

Inductive re : Type :=
| Void
| Eps
| Cls (p : C -> bool)
| Cat (r1 r2 : re)
| Alt (r1 r2 : re)
| Star (r : re).

(** [r+] *)
Definition Plus (r : re) : re := Cat r (Star r).

Fixpoint nullable (r : re) : bool :=
  match r with
  | Void => false
  | Eps => true
  | Cls _ => false
  | Cat r1 r2 => nullable r1 && nullable r2
  | Alt r1 r2 => nullable r1 || nullable r2
  | Star _ => true
  end.

Fixpoint deriv (c : C) (r : re) : re :=
  match r with
  | Void => Void
  | Eps => Void
  | Cls p => if p c then Eps else Void
  | Cat r1 r2 =>
      if nullable r1 then Alt (Cat (deriv c r1) r2) (deriv c r2)
      else Cat (deriv c r1) r2
  | Alt r1 r2 => Alt (deriv c r1) (deriv c r2)
  | Star r' => Cat (deriv c r') (Star r')
  end.

(** [/^r$/.test(s)] *)
Definition test (r : re) (s : list C) : bool :=
  nullable (foldl (fun r c => deriv c r) r s).

Inductive lang : re -> list C -> Prop :=
| lang_eps : lang Eps []
| lang_cls p c : p c = true -> lang (Cls p) [c]
| lang_cat r1 r2 s1 s2 : lang r1 s1 -> lang r2 s2 -> lang (Cat r1 r2) (s1 ++ s2)
| lang_alt_l r1 r2 s : lang r1 s -> lang (Alt r1 r2) s
| lang_alt_r r1 r2 s : lang r2 s -> lang (Alt r1 r2) s
| lang_star_nil r : lang (Star r) []
| lang_star_cons r s1 s2 :
    lang r s1 -> lang (Star r) s2 -> lang (Star r) (s1 ++ s2).

End Re.

Arguments re C : clear implicits.

End Regex.

(* ===================================================================== *)
(** * Email format check (functions)                                      *)
(* ===================================================================== *)

Module Email.

Import Regex.

(** A string as the regular expression sees it: its UTF-16 code units. *)
Definition AT : N := 64.
Definition DOT : N := 46.

(** [\s]: the white space and the line terminators of ECMAScript. *)
Definition is_space (c : N) : bool :=
  ((9 <=? c) && (c <=? 13) || (c =? 32) || (c =? 160) || (c =? 5760)
   || (8192 <=? c) && (c <=? 8202) || (c =? 8232) || (c =? 8233)
   || (c =? 8239) || (c =? 8287) || (c =? 12288) || (c =? 65279))%N.

(** [[^\s@]] *)
Definition plain (c : N) : bool := negb (is_space c || (c =? AT)%N).

(** [^[^\s@]+@[^\s@]+\.[^\s@]+$] *)
Definition EMAIL : re N :=
  Cat (Plus (Cls plain))
    (Cat (Cls (N.eqb AT))
       (Cat (Plus (Cls plain))
          (Cat (Cls (N.eqb DOT))
             (Plus (Cls plain))))).

Definition isValidEmail (v : list N) : bool := test EMAIL v.

End Email.

(* ===================================================================== *)
(** * Exchange rate cache (functions)                                     *)
(* ===================================================================== *)

Module RateOracle.

Import Functions.

Definition RATE_TTL : Z := 60000.

(** [rateCache] and [rateCacheExp]. *)
Record Cache : Type := { rateCache : option Rates; rateCacheExp : Z }.

Definition INITIAL : Cache := {| rateCache := None; rateCacheExp := 0 |}.

(** The body of the oracle's reply: for each coin, [None] when its entry is
    missing, else the [usd] of the entry, a number (NaN when it has none). *)
Record Body : Type := {
  usd_coin : option num;
  ethereum : option num;
  bitcoin : option num;
  solana : option num
}.

Definition BAD_RESPONSE : exn := Error "Bad CoinGecko resp".
Definition NO_ENTRY : exn :=
  Error "TypeError: Cannot read properties of undefined (reading 'usd')".

(** [d[coin].usd] *)
Definition usd_of (entry : option num) : result num :=
  match entry with Some v => Ok v | None => Throw NO_ENTRY end.

(** The object built from the reply [d], inside the [try]. *)
Definition quote (d : Body) : result Rates :=
  match ethereum d with
  | None => Throw BAD_RESPONSE
  | Some _ =>
      usdc ← usd_of (usd_coin d);
      eth ← usd_of (ethereum d);
      btc ← usd_of (bitcoin d);
      sol ← usd_of (solana d);
      Ok (fun c =>
            if String.eqb c "USD" then of_Z 1
            else if String.eqb c "USDC" then usdc
            else if String.eqb c "ETH" then eth
            else if String.eqb c "BTC" then btc
            else if String.eqb c "SOL" then sol
            else NaN)
  end.

(** [getExchangeRates()]. [now] is the clock when the cache is tested, [now']
    when the fresh quote is stored; [fetch] is what [fetch(url)] and
    [r.json()] give. *)
Definition getExchangeRates (c : Cache) (now now' : Z) (fetch : result Body)
  : result Rates * Cache :=
  match rateCache c with
  | Some r =>
      if now <? rateCacheExp c then (Ok r, c)
      else
        match fetch ≫= quote with
        | Ok r' => (Ok r', {| rateCache := Some r';
                              rateCacheExp := now' + RATE_TTL |})
        | Throw _ => (Ok r, c)
        end
  | None =>
      match fetch ≫= quote with
      | Ok r' => (Ok r', {| rateCache := Some r';
                            rateCacheExp := now' + RATE_TTL |})
      | Throw err => (Throw err, c)
      end
  end.

End RateOracle.

(* ===================================================================== *)
(** * Secret Manager cache (proxy)                                        *)
(* ===================================================================== *)

Module SecretCache.

Definition CACHE_TTL : Z := 5 * 60 * 1000.

Record Cached : Type := { key : string; expiry : Z }.

(** [getApiKey(secretName)] on the [keyCache]. [now] is the clock when the
    cache is tested, [now'] when the key is stored; [access] is what the
    secret store gives for the latest version of the secret. *)
Definition getApiKey (keyCache : gmap string Cached) (now now' : Z)
    (secretName : string) (access : result string)
  : result string * gmap string Cached :=
  let miss :=
    match access with
    | Ok k =>
        (Ok k, <[secretName := {| key := k; expiry := now' + CACHE_TTL |}]> keyCache)
    | Throw e => (Throw e, keyCache)
    end in
  match keyCache !! secretName with
  | Some cached => if now <? expiry cached then (Ok (key cached), keyCache)
                   else miss
  | None => miss
  end.

End SecretCache.

(* ===================================================================== *)
(** * Account view (functions) and price list (proxy)                     *)
(* ===================================================================== *)

Module Views.

Import Functions.



Record Listing : Type := {
  id : string;
  provider : string;
  input_per_million_tokens_usd : num;
  output_per_million_tokens_usd : num
}.

(** The body of [GET /v1/models]. A price is the quotient as the reply
    prints it: the shortest decimal that reads back as the double, which for
    every row of the table is the decimal [input / 10^6] itself. *)
Definition models : list Listing :=
  map (fun e : string * Pricing.Row =>
         {| id := e.1;
            provider := Proxy.name (Proxy.detectProvider e.1);
            input_per_million_tokens_usd :=
              div (of_Z (Pricing.input e.2)) (of_Z 1000000);
            output_per_million_tokens_usd :=
              div (of_Z (Pricing.output e.2)) (of_Z 1000000) |})
      Pricing.PRICING.

End Views.

(* ===================================================================== *)
(** * Properties of stores, journals and requests                         *)
(* ===================================================================== *)

Module Props.

Import Proxy.

(** The arithmetic of a journal entry: a deposit and a transfer_in add the
    amount, the other types subtract it. *)
Definition entry_consistent (e : Entry) : Prop :=
  match type e with
  | deposit_t | transfer_in => balanceAfter e = add (balanceBefore e) (amount e)
  | llm_usage | transfer_out | conversion =>
      balanceAfter e = sub (balanceBefore e) (amount e)
  end.

(** No message has the role system and no two neighbours have the same
    role. *)
Fixpoint alternating (l : list Message) : Prop :=
  match l with
  | [] => True
  | m :: l' =>
      role m <> "system" /\
      match l' with [] => True | h :: _ => role m <> role h end /\
      alternating l'
  end.

(** Concurrent calls of [POST /v1/chat/completions] with the same request:
    the store runs their debit transactions one after the other from [s];
    [pres] holds, for each call in that order, the store its pre-check
    read. *)
Fixpoint serve (env : Env) (req : Request) (pres : list Store) (s : Store)
  : list (Response Reply) * Store :=
  match pres with
  | [] => ([], s)
  | s_pre :: pres' =>
      let (r, s1) := chatCompletions env req s_pre s in
      let (rs, s2) := serve env req pres' s1 in
      (r :: rs, s2)
  end.

Definition count_code (c : Z) (rs : list (Response Reply)) : nat :=
  length (List.filter (fun r => code r =? c) rs).




(** The document [new] is the document [old], but for the balances of the
    currencies [cs]. *)
Definition same_but (cs : list string) (old new : option Account) : Prop :=
  match old, new with
  | Some a, Some a' =>
      status a' = status a /\ email a' = email a /\
      forall c, ~ In c cs -> balances a' !! c = balances a !! c
  | None, None => True
  | _, _ => False
  end.

End Props.

(* ===================================================================== *)
(** * More sample data                                                    *)
(* ===================================================================== *)

Module Cases.

Import Functions Samples.

(** A provider whose response names, as its model, a property that every
    object inherits. *)
Definition completion_nan : Proxy.ChatCompletion :=
  {| Proxy.cc_id := "chatcmpl-2";
     Proxy.cc_model := "constructor";
     Proxy.cc_choices := [];
     Proxy.cc_usage :=
       {| Proxy.prompt_tokens := of_Z 100;
          Proxy.completion_tokens := of_Z 50;
          Proxy.total_tokens := of_Z 150 |} |}.

(** A provider whose response carries a usage object without token
    counts. *)
Definition completion_uncounted : Proxy.ChatCompletion :=
  {| Proxy.cc_id := "chatcmpl-3";
     Proxy.cc_model := "gpt-4o";
     Proxy.cc_choices := [];
     Proxy.cc_usage :=
       {| Proxy.prompt_tokens := NaN;
          Proxy.completion_tokens := NaN;
          Proxy.total_tokens := NaN |} |}.

Definition proxy_env_nan : Proxy.Env :=
  {| Proxy.verify := Proxy.verify proxy_env0;
     Proxy.getApiKey := Proxy.getApiKey proxy_env0;
     Proxy.post_chat := fun _ _ _ => Ok completion_nan;
     Proxy.post_messages := Proxy.post_messages proxy_env0 |}.

Definition proxy_env_uncounted : Proxy.Env :=
  {| Proxy.verify := Proxy.verify proxy_env0;
     Proxy.getApiKey := Proxy.getApiKey proxy_env0;
     Proxy.post_chat := fun _ _ _ => Ok completion_uncounted;
     Proxy.post_messages := Proxy.post_messages proxy_env0 |}.

(** Agent A holds 2000 micros: two completions of 750 micros, not three. *)
Definition store_2000 : Store :=
  {| accounts := <["agent-a" := account 2000 "a@often.ai"]> ∅; journal := [] |}.


End Cases.

(* ===================================================================== *)
(** * Numbers                                                             *)
(* ===================================================================== *)

Section Numbers.

Lemma of_Z_add (a b : Z) : add (of_Z a) (of_Z b) = of_Z (a + b).
Proof. unfold add, of_Z. by rewrite Z2Qc_inj_add. Qed.

Lemma of_Z_sub (a b : Z) : sub (of_Z a) (of_Z b) = of_Z (a - b).
Proof. unfold sub, of_Z. by rewrite Z2Qc_inj_sub. Qed.

Lemma of_Z_mul (a b : Z) : mul (of_Z a) (of_Z b) = of_Z (a * b).
Proof. unfold mul, of_Z. by rewrite Z2Qc_inj_mul. Qed.


Lemma lt_of_Z (a b : Z) : lt (of_Z a) (of_Z b) = bool_decide (a < b).
Proof.
  unfold lt, of_Z. apply bool_decide_ext. by rewrite <-Z2Qc_inj_lt.
Qed.

Lemma le_of_Z (a b : Z) : le (of_Z a) (of_Z b) = bool_decide (a <= b).
Proof.
  unfold le, of_Z. apply bool_decide_ext. by rewrite <-Z2Qc_inj_le.
Qed.

Lemma toBigInt_of_Z (z : Z) : toBigInt (of_Z z) = Some z.
Proof. reflexivity. Qed.

Lemma isInteger_of_Z (z : Z) : isInteger (of_Z z) = true.
Proof. reflexivity. Qed.

(** A number is an integer exactly when it is the image of one. *)
Lemma toBigInt_Some (a : num) (z : Z) : toBigInt a = Some z -> a = of_Z z.
Proof.
  destruct a as [[[n d] Hc]|]; simpl; [|done].
  case_bool_decide as Hd; [|done]. intros [= <-].
  simpl in Hd. subst d. unfold of_Z. f_equal. by apply Qc_is_canon.
Qed.

Lemma isInteger_inv (a : num) : isInteger a = true -> exists z, a = of_Z z.
Proof.
  intros H. destruct a as [q|]; [|done].
  exists (Qnum q). apply toBigInt_Some. simpl in *.
  by rewrite H.
Qed.

Lemma or_zero_Fin (v : option num) : exists q, or_zero v = Fin q.
Proof.
  destruct v as [[q|]|]; simpl; eauto.
  destruct (negb _); eauto.
Qed.

(** [v || 0] keeps a non-negative balance non-negative and an integer one an
    integer. *)
Lemma or_zero_nonneg (v : option num) :
  (forall a, v = Some a -> nonneg a) -> nonneg (or_zero v).
Proof.
  intros H. destruct v as [[q|]|]; simpl.
  - destruct (negb _); [by apply H|]. simpl. apply Qcle_refl.
  - apply Qcle_refl.
  - apply Qcle_refl.
Qed.

Lemma or_zero_integral (v : option num) :
  (forall a, v = Some a -> integral a) -> integral (or_zero v).
Proof.
  intros H. destruct v as [[q|]|]; simpl; try done.
  destruct (negb _); [by apply H|done].
Qed.

Lemma integral_add (a b : num) : integral a -> integral b -> integral (add a b).
Proof.
  intros [x ->]%isInteger_inv [y ->]%isInteger_inv.
  rewrite of_Z_add. apply isInteger_of_Z.
Qed.

Lemma integral_sub (a b : num) : integral a -> integral b -> integral (sub a b).
Proof.
  intros [x ->]%isInteger_inv [y ->]%isInteger_inv.
  rewrite of_Z_sub. apply isInteger_of_Z.
Qed.

Lemma nonneg_add_pos (x a : Qc) :
  nonneg (Fin x) -> le (Fin a) (of_Z 0) = false -> nonneg (add (Fin x) (Fin a)).
Proof.
  simpl. intros Hx Ha. apply bool_decide_eq_false in Ha.
  apply Qcnot_le_lt in Ha. rewrite Z2Qc_inj_0 in *.
  apply Qcplus_nonneg_nonneg; [done|]. by apply Qclt_le_weak.
Qed.

Lemma nonneg_sub_le (x a : Qc) :
  lt (Fin x) (Fin a) = false -> nonneg (sub (Fin x) (Fin a)).
Proof.
  simpl. intros H. apply bool_decide_eq_false in H. apply Qcnot_lt_le in H.
  rewrite Z2Qc_inj_0. apply (Qcplus_le_mono_r _ _ a).
  by replace (x - a + a)%Qc with x by ring; rewrite Qcplus_0_l.
Qed.

End Numbers.

(* ===================================================================== *)
(** * The cost engine                                                     *)
(* ===================================================================== *)

Section Cost.

Import Pricing.

Lemma ceil_div_opp (n d : Z) : 0 < d -> - (- n / d) = ceil_div n d.
Proof.
  intros Hd. unfold ceil_div.
  pose proof (Z.div_mod (- n) d ltac:(lia)) as Hdm.
  pose proof (Z.mod_pos_bound (- n) d Hd) as Hb.
  apply Z.div_unique with (r := d - 1 - (- n) mod d); lia.
Qed.

Lemma Qceiling_div (n d : Z) :
  0 < d -> Qceiling (Qc_of_Z n / Qc_of_Z d)%Qc = ceil_div n d.
Proof.
  intros Hd. rewrite <-ceil_div_opp by done.
  unfold Qceiling. f_equal. rewrite (Zdiv_Qdiv (- n) d).
  apply Qfloor_comp.
  unfold Qcdiv, Qcmult, Qcinv, Q2Qc, Qc_of_Z; simpl this.
  rewrite !Qred_correct, inject_Z_opp. unfold Qdiv. ring.
Qed.

Lemma ceil_div_of_Z (n d : Z) :
  0 < d -> ceil (div (of_Z n) (of_Z d)) = of_Z (ceil_div n d).
Proof.
  intros Hd. unfold div, of_Z.
  case_bool_decide as H0; [apply Z2Qc_inj in H0; lia|].
  unfold ceil. by rewrite Qceiling_div.
Qed.

Lemma assoc_Forall {A : Type} (P : A -> Prop) (l : list (string * A)) k a :
  Forall (fun x => P x.2) l -> assoc k l = Some a -> P a.
Proof.
  induction 1 as [|[k' a'] l HP _ IH]; simpl; [done|].
  destruct (String.eqb k k'); [by intros [= <-]|done].
Qed.

Lemma row_of_nonneg (m : string) :
  0 <= input (row_of m) /\ 0 <= output (row_of m).
Proof.
  unfold row_of. destruct (assoc m PRICING) as [r|] eqn:E.
  - revert E.
    apply (assoc_Forall (fun r => 0 <= input r /\ 0 <= output r) PRICING m r).
    unfold PRICING. repeat constructor; simpl; lia.
  - simpl. lia.
Qed.

(** A name that no object inherits is billed with its row or the default. *)
Lemma pricing_lookup (m : string) :
  inherited m = false ->
  or_else (get PRICING m) (Own DEFAULT_PRICING) = Own (row_of m).
Proof.
  intros H. unfold get, row_of.
  destruct (assoc m PRICING); [done|]. by rewrite H.
Qed.

(** On every model name that [Object.prototype] does not define, the cost is
    the specification's ceiling formula. *)
Lemma calculateCostMicros_spec (m : string) (p c : Z) :
  inherited m = false ->
  calculateCostMicros m (of_Z p) (of_Z c) = of_Z (cost_spec m p c).
Proof.
  intros H. unfold calculateCostMicros, cost_spec.
  rewrite pricing_lookup by done. simpl p_input; simpl p_output.
  rewrite !of_Z_mul, of_Z_add. by apply ceil_div_of_Z.
Qed.

Lemma cost_spec_zero (m : string) : cost_spec m 0 0 = 0.
Proof. unfold cost_spec. by rewrite !Z.mul_0_l. Qed.

Lemma cost_spec_nonneg (m : string) (p c : Z) :
  0 <= p -> 0 <= c -> 0 <= cost_spec m p c.
Proof.
  intros Hp Hc. destruct (row_of_nonneg m) as [Hi Ho].
  unfold cost_spec, ceil_div. apply Z.div_pos; nia.
Qed.

(** A model the table does not know is billed like gpt-4o. *)
Lemma cost_spec_unknown (m : string) (p c : Z) :
  assoc m PRICING = None -> cost_spec m p c = cost_spec "gpt-4o" p c.
Proof. intros H. unfold cost_spec, row_of. by rewrite H. Qed.

(** The rows of the tests: 1000 prompt and 500 completion tokens of gpt-4o
    cost 7500 micros, 100 and 50 cost 750, and one token of gpt-4o-mini is
    rounded up to one micro. *)
Example cost_gpt4o_1000_500 :
  calculateCostMicros "gpt-4o" (of_Z 1000) (of_Z 500) = of_Z 7500.
Proof. by rewrite calculateCostMicros_spec. Qed.

Example cost_gpt4o_100_50 :
  calculateCostMicros "gpt-4o" (of_Z 100) (of_Z 50) = of_Z 750.
Proof. by rewrite calculateCostMicros_spec. Qed.

Example cost_gpt4o_mini_1_0 :
  calculateCostMicros "gpt-4o-mini" (of_Z 1) (of_Z 0) = of_Z 1.
Proof. by rewrite calculateCostMicros_spec. Qed.

(** C5. The claim: for every model string and non-negative token counts the
    cost is the ceiling of (p * input_rate + c * output_rate) / 10^6 with the
    rates of the model's row or of the default, so that the cost of zero
    tokens is zero. On the code, the model name ["constructor"] is neither:
    [PRICING["constructor"]] is the function every object inherits, the
    default is not taken, both rates are undefined, and the cost of zero
    tokens is NaN where the formula gives 0. *)
Theorem calculateCostMicros_inherited_name :
  assoc "constructor" PRICING = None /\
  calculateCostMicros "constructor" (of_Z 0) (of_Z 0) = NaN /\
  cost_spec "constructor" 0 0 = 0.
Proof. repeat split. Qed.

End Cost.

(* ===================================================================== *)
(** * Transactions on the store                                          *)
(* ===================================================================== *)

Ltac tx_unfold :=
  unfold runTransaction, mbind, tx_bind, tx_get, tx_update, tx_create,
    mret, tx_ret, throw.

Section StoreFacts.

Import Functions.

(** A transaction whose body throws leaves the store as it was. *)
Lemma runTransaction_throw {A : Type} (body : Tx A) (s : Store) (e : exn) :
  body s [] = Throw e -> runTransaction body s = (Throw e, s).
Proof. intros H. unfold runTransaction. by rewrite H. Qed.

(** Whatever a transaction does, a thrown error means nothing was written. *)
Lemma runTransaction_atomic {A : Type} (body : Tx A) (s s' : Store) (e : exn) :
  runTransaction body s = (Throw e, s') -> s' = s.
Proof.
  unfold runTransaction.
  destruct (body s []) as [[a ws]|e']; [|congruence].
  destruct (apply_writes s ws); congruence.
Qed.

Lemma set_fields_Forall (P : num -> Prop) (fields : list (string * num))
    (a : Account) :
  map_Forall (fun _ v => P v) (balances a) ->
  Forall (fun f => P f.2) fields ->
  map_Forall (fun _ v => P v) (balances (set_fields fields a)).
Proof.
  unfold set_fields. simpl. generalize (balances a) as b.
  induction fields as [|[c v] fields IH]; intros b Hb Hf; simpl; [done|].
  inversion Hf; subst. apply IH; [|done].
  by apply map_Forall_insert_2.
Qed.

Lemma all_balances_update (P : num -> Prop) (s : Store) uid acct fields j :
  all_balances P s ->
  accounts s !! uid = Some acct ->
  Forall (fun f => P f.2) fields ->
  all_balances P {| accounts := <[uid := set_fields fields acct]> (accounts s);
                    journal := j |}.
Proof.
  unfold all_balances. simpl. intros Hs Hu Hf.
  apply map_Forall_insert_2; [|done].
  apply set_fields_Forall; [|done]. by apply (Hs uid).
Qed.

Lemma all_balances_lookup (P : num -> Prop) (s : Store) uid acct c :
  all_balances P s -> accounts s !! uid = Some acct ->
  forall a, balances acct !! c = Some a -> P a.
Proof. intros Hs Hu a Ha. by apply (Hs uid acct Hu c a). Qed.

(** ** The deposit transaction *)

Lemma deposit_tx_commit (s : Store) (id : Id) (c : string) (amt : num)
    (acct : Account) :
  accounts s !! text id = Some acct ->
  runTransaction (deposit_tx id amt c) s =
    (Ok (add (balance_of acct c) amt),
     commit s (text id) acct [(c, add (balance_of acct c) amt)]
       [deposit_entry id c (balance_of acct c) amt]).
Proof.
  intros H. unfold deposit_tx. tx_unfold. rewrite H. simpl. by rewrite H.
Qed.

Lemma deposit_tx_missing (s : Store) (id : Id) (c : string) (amt : num) :
  accounts s !! text id = None ->
  runTransaction (deposit_tx id amt c) s = (Throw (Error "ACCOUNT_NOT_FOUND"), s).
Proof. intros H. unfold deposit_tx. tx_unfold. by rewrite H. Qed.

(** ** The transfer transaction *)

Lemma transfer_tx_no_sender (s : Store) uid to amt c d :
  accounts s !! uid = None ->
  runTransaction (transfer_tx uid to amt c d) s
  = (Throw (Error "SENDER_NOT_FOUND"), s).
Proof. intros H. unfold transfer_tx. tx_unfold. by rewrite H. Qed.

Lemma transfer_tx_no_recipient (s : Store) uid to amt c d sAcct :
  accounts s !! uid = Some sAcct ->
  accounts s !! text to = None ->
  runTransaction (transfer_tx uid to amt c d) s
  = (Throw (Error "RECIPIENT_NOT_FOUND"), s).
Proof. intros H1 H2. unfold transfer_tx. tx_unfold. by rewrite H1, H2. Qed.

Lemma transfer_tx_insufficient (s : Store) uid to amt c d sAcct rAcct :
  accounts s !! uid = Some sAcct ->
  accounts s !! text to = Some rAcct ->
  lt (balance_of sAcct c) amt = true ->
  runTransaction (transfer_tx uid to amt c d) s
  = (Throw (Error "INSUFFICIENT_FUNDS"), s).
Proof.
  intros H1 H2 H3. unfold transfer_tx. tx_unfold. by rewrite H1, H2, H3.
Qed.

Lemma transfer_tx_commit (s : Store) uid to amt c d sAcct rAcct :
  accounts s !! uid = Some sAcct ->
  accounts s !! text to = Some rAcct ->
  lt (balance_of sAcct c) amt = false ->
  runTransaction (transfer_tx uid to amt c d) s
  = (Ok (sub (balance_of sAcct c) amt), transferred s uid to c amt d sAcct rAcct).
Proof.
  intros H1 H2 H3. unfold transfer_tx. tx_unfold.
  rewrite H1, H2, H3. simpl. rewrite H1. simpl.
  unfold transferred. destruct (decide (text to = uid)) as [He|Hne].
  - rewrite He, lookup_insert_eq. simpl. by rewrite <-app_assoc.
  - rewrite lookup_insert_ne by done. rewrite H2. simpl.
    by rewrite <-app_assoc.
Qed.

(** ** The conversion transaction *)

Lemma convert_tx_missing (s : Store) uid from to amt cv rates :
  accounts s !! uid = None ->
  runTransaction (convert_tx uid from to amt cv rates) s
  = (Throw (Error "ACCOUNT_NOT_FOUND"), s).
Proof. intros H. unfold convert_tx. tx_unfold. by rewrite H. Qed.

Lemma convert_tx_insufficient (s : Store) uid from to amt cv rates acct :
  accounts s !! uid = Some acct ->
  lt (balance_of acct from) amt = true ->
  runTransaction (convert_tx uid from to amt cv rates) s
  = (Throw (Error "INSUFFICIENT_FUNDS"), s).
Proof. intros H1 H2. unfold convert_tx. tx_unfold. by rewrite H1, H2. Qed.

Lemma convert_tx_commit (s : Store) uid from to amt cv rates acct :
  accounts s !! uid = Some acct ->
  lt (balance_of acct from) amt = false ->
  runTransaction (convert_tx uid from to amt cv rates) s
  = (Ok (<[to := add (balance_of acct to) cv]>
           (<[from := sub (balance_of acct from) amt]> (balances acct))),
     commit s uid acct
       [(from, sub (balance_of acct from) amt); (to, add (balance_of acct to) cv)]
       [conversion_entry uid from to (balance_of acct from) amt cv rates]).
Proof.
  intros H1 H2. unfold convert_tx. tx_unfold.
  rewrite H1, H2. simpl. by rewrite H1.
Qed.

End StoreFacts.

(* ===================================================================== *)
(** * Admin gate and deposit                                              *)
(* ===================================================================== *)

Ltac by_compute := apply (bool_decide_unpack _); vm_compute; exact I.

Section Deposit.

Import Functions Samples.

Lemma isAdmin_iff {B : Type} (env : Env) (req : Request B) :
  isAdmin env req = true <->
  exists key, key <> "" /\ ADMIN_API_KEY env = Some key
              /\ x_admin_key req = Some key.
Proof.
  unfold isAdmin, truthy_str. split.
  - destruct (ADMIN_API_KEY env) as [key|]; [|done].
    intros [Hk Hh]%andb_true_iff. exists key.
    apply negb_true_iff, String.eqb_neq in Hk.
    by apply bool_decide_eq_true in Hh.
  - intros (key & Hk & -> & Hh). apply andb_true_iff. split.
    + by apply negb_true_iff, String.eqb_neq.
    + by apply bool_decide_eq_true.
Qed.

Lemma deposit_checks_inr (env : Env) (req : Request DepositBody) (a : Qc) :
  deposit_checks env req = inr a ->
  method req = "POST" /\ isAdmin env req = true
  /\ d_amount (payload req) = Some a
  /\ le (Fin a) (of_Z 0) = false
  /\ supported (d_currency (payload req)) = true.
Proof.
  unfold deposit_checks.
  destruct (String.eqb (method req) "POST") eqn:Hm; cbn [negb]; [|done].
  destruct (isAdmin env req); cbn [negb]; [|done].
  destruct (d_amount (payload req)) as [a'|]; [|done].
  destruct (truthy_id _); cbn [negb orb]; [|done].
  destruct (le (Fin a') (of_Z 0)) eqn:Hle; [done|].
  destruct (supported _); cbn [negb]; [|done].
  intros [= ->]. by apply String.eqb_eq in Hm.
Qed.

(** The store after a deposit is the one before, or the one before with the
    credit and its journal entry committed together. *)
Lemma deposit_store (env : Env) (req : Request DepositBody) (s : Store) :
  (deposit env req s).2 = s \/
  exists a acct,
    deposit_checks env req = inr a /\
    accounts s !! text (d_accountId (payload req)) = Some acct /\
    let id := d_accountId (payload req) in
    let c := d_currency (payload req) in
    deposit env req s =
      (reply 200 (BalanceReply c (add (balance_of acct c) (Fin a))),
       commit s (text id) acct [(c, add (balance_of acct c) (Fin a))]
         [deposit_entry id c (balance_of acct c) (Fin a)]).
Proof.
  unfold deposit. destruct (deposit_checks env req) as [r|a] eqn:Hc; [by left|].
  destruct (accounts s !! text (d_accountId (payload req))) as [acct|] eqn:Ha.
  - right. exists a, acct. by rewrite (deposit_tx_commit _ _ _ _ acct).
  - left. by rewrite deposit_tx_missing.
Qed.

(** C9. The admin check succeeds only when ADMIN_API_KEY is set and the
    X-Admin-Key header is equal to it; for every other header value a POST
    to /deposit is answered 403, and whatever the method, the store (balances
    and journal) is left as it was. *)
Theorem deposit_requires_admin_key (env : Env) (req : Request DepositBody)
    (s : Store) :
  (isAdmin env req = true ->
     exists key, ADMIN_API_KEY env = Some key /\ x_admin_key req = Some key) /\
  (~ (exists key, ADMIN_API_KEY env = Some key /\ x_admin_key req = Some key) ->
     (deposit env req s).2 = s /\
     (method req = "POST" ->
        (deposit env req s).1 = reply 403 (ErrorReply "Forbidden"))).
Proof.
  split.
  - intros (key & _ & ? & ?)%isAdmin_iff. eauto.
  - intros Hno.
    assert (isAdmin env req = false) as Hadm.
    { destruct (isAdmin env req) eqn:E; [|done].
      apply isAdmin_iff in E as (key & _ & ? & ?). destruct Hno; eauto. }
    unfold deposit, deposit_checks. rewrite Hadm. simpl.
    destruct (String.eqb (method req) "POST") eqn:Hm; simpl; (split; [done|]).
    + done.
    + intros Hp. by rewrite Hp in Hm.
Qed.

(** The injection payload of the tests is refused. *)
Lemma deposit_requires_admin_key_witness :
  (deposit env0 (admin_post "' OR 1=1 --" (deposit_body (Qc_of_Z 10000000)))
     store0).2 = store0 /\
  (deposit env0 (admin_post "' OR 1=1 --" (deposit_body (Qc_of_Z 10000000)))
     store0).1 = reply 403 (ErrorReply "Forbidden").
Proof.
  destruct (deposit_requires_admin_key env0
              (admin_post "' OR 1=1 --" (deposit_body (Qc_of_Z 10000000)))
              store0) as [_ H].
  destruct H as [H1 H2].
  - intros (key & Hk & Hh). simpl in Hk, Hh. congruence.
  - split; [exact H1|]. apply H2. reflexivity.
Defined.

End Deposit.

(* ===================================================================== *)
(** * Currency conversion                                                 *)
(* ===================================================================== *)

Section Conversion.

Import Functions Samples.

Lemma supported_In (c : string) : supported c = true -> In c SUPPORTED.
Proof.
  unfold supported. intros (x & Hx & Heq)%existsb_exists.
  apply String.eqb_eq in Heq. by subst.
Qed.

(** Every supported currency has a positive unit factor. *)
Lemma supported_unit (c : string) :
  supported c = true -> get UNITS c = Own (unit_of c) /\ 0 < unit_of c.
Proof.
  intros H%supported_In. simpl in H.
  destruct H as [<-|[<-|[<-|[<-|[<-|[]]]]]]; by vm_compute.
Qed.

Lemma convertCurrency_same (c : string) (x : num) (r : Rates) :
  convertCurrency c c x r = Ok x.
Proof. unfold convertCurrency. by rewrite String.eqb_refl. Qed.

Lemma convertCurrency_Ok (from to : string) (amount : num) (rates : Rates)
    (v : num) :
  from <> to ->
  convertCurrency from to amount rates = Ok v ->
  exists fc tc z fu tu,
    cents rates from = Some fc /\ cents rates to = Some tc /\
    toBigInt amount = Some z /\
    get UNITS from = Own fu /\ get UNITS to = Own tu /\
    fu * tc <> 0 /\
    v = of_Z (Z.quot (z * fc * tu) (fu * tc)).
Proof.
  intros Hne%String.eqb_neq. unfold convertCurrency, cents. rewrite Hne.
  unfold mbind, result_bind, BigInt, BigInt_unit, bigint_div.
  unfold BigInt64.
  destruct (toBigInt64 (round64 (mul64 (rates from) _))) as [fc|]; [|done].
  destruct (toBigInt64 (round64 (mul64 (rates to) _))) as [tc|]; [|done].
  destruct (toBigInt amount) as [z|]; [|done].
  destruct (get UNITS from) as [fu| |]; [|done..].
  destruct (get UNITS to) as [tu| |]; [|done..].
  destruct (Z.eqb_spec (fu * tc) 0) as [|Hnz]; [done|].
  intros [= <-]. by exists fc, tc, z, fu, tu.
Qed.

(** The value [convertCurrency] returns is the specification's formula. *)
Lemma convertCurrency_formula (from to : string) (z : Z) (rates : Rates)
    (fc tc : Z) :
  from <> to -> supported from = true -> supported to = true ->
  cents rates from = Some fc -> cents rates to = Some tc -> tc <> 0 ->
  convertCurrency from to (of_Z z) rates
  = Ok (of_Z (converted_spec from to z fc tc)).
Proof.
  intros Hne%String.eqb_neq [Hfu Hfp]%supported_unit [Htu Htp]%supported_unit
    Hfc Htc Hnz.
  unfold convertCurrency, cents in *. rewrite Hne.
  unfold mbind, result_bind, BigInt64, BigInt, BigInt_unit, bigint_div.
  rewrite Hfc, Htc, toBigInt_of_Z, Hfu, Htu.
  destruct (Z.eqb_spec (unit_of from * tc) 0) as [H0|_]; [nia|done].
Qed.

(** With a zero divisor, the division is what throws. *)
Lemma convertCurrency_div_zero (from to : string) (z : Z) (rates : Rates)
    (fc : Z) :
  from <> to -> supported from = true -> supported to = true ->
  cents rates from = Some fc -> cents rates to = Some 0 ->
  convertCurrency from to (of_Z z) rates = Throw DIVISION_BY_ZERO.
Proof.
  intros Hne%String.eqb_neq [Hfu Hfp]%supported_unit [Htu Htp]%supported_unit
    Hfc Htc.
  unfold convertCurrency, cents in *. rewrite Hne.
  unfold mbind, result_bind, BigInt64, BigInt, BigInt_unit, bigint_div.
  rewrite Hfc, Htc, toBigInt_of_Z, Hfu, Htu.
  by rewrite Z.mul_0_r.
Qed.

(** Whatever the other inputs are, no value is returned. *)
Lemma convertCurrency_zero_divisor_throws (from to : string) (amount : num)
    (rates : Rates) :
  from <> to -> cents rates to = Some 0 ->
  exists e, convertCurrency from to amount rates = Throw e.
Proof.
  intros Hne Htc.
  destruct (convertCurrency from to amount rates) as [v|e] eqn:E; [|eauto].
  apply convertCurrency_Ok in E as (fc & tc & z & fu & tu & _ & Htc' & _ & _ & _
                                     & Hnz & _); [|done].
  rewrite Htc in Htc'. injection Htc' as <-. lia.
Qed.

Lemma converted_spec_nonneg (from to : string) (z fc tc : Z) :
  supported from = true -> supported to = true ->
  0 <= z -> 0 <= fc -> 0 < tc -> 0 <= converted_spec from to z fc tc.
Proof.
  intros [_ Hfp]%supported_unit [_ Htp]%supported_unit Hz Hfc Htc.
  unfold converted_spec. apply Z.quot_pos; nia.
Qed.

(** The product of a price by 100 is a double: 111.5 for a price of 1.115,
    where the exact product is below 111.5. The price is 112 cents. *)
Example cents_of_rounded_product :
  cents rates_usdc "USDC" = Some 112 /\
  mul64 (rates_usdc "USDC") (of_Z 100) = Num (Fin (Q2Qc (223 # 2))) /\
  round (mul (rates_usdc "USDC") (of_Z 100)) = of_Z 111.
Proof. repeat split; by_compute. Qed.

(** The conversions of the unit tests. *)
Example convert_usd_eth :
  convertCurrency "USD" "ETH" (of_Z 1000000) rates0 = Ok (of_Z 285714).
Proof. reflexivity. Qed.

Example convert_eth_btc :
  convertCurrency "ETH" "BTC" (of_Z 1000000000) rates0 = Ok (of_Z 5384615).
Proof. reflexivity. Qed.

Example convert_small :
  convertCurrency "USD" "ETH" (of_Z 1) rates0 = Ok (of_Z 0).
Proof. reflexivity. Qed.

(** C10 as the claim states it fails: in a rates map whose price of BTC rounds
    to 6500000 cents but whose price of ETH is missing, the conversion of one
    ETH to BTC throws: [rates["ETH"] * 100] is NaN, which [BigInt] refuses. *)
Lemma convertCurrency_missing_rate_throws :
  cents rates_no_eth "BTC" = Some 6500000 /\
  rates_no_eth "ETH" = NaN /\
  convertCurrency "ETH" "BTC" (of_Z 1000000000) rates_no_eth
  = Throw NOT_AN_INTEGER.
Proof. repeat split. Qed.

(** C10, amended. For supported currencies [from <> to], a positive integer
    amount of at most 2^53 and a rates map in which rates[from] is a number
    whose product by 100, a double, is rounded by Math.round to the integer
    [fc >= 0]: if rates[to] is a number whose product by 100 is rounded to
    an integer [tc >= 1] and the quotient (amount * fc * u_to) div
    (u_from * tc) is at most 2^53, [convertCurrency] returns that quotient,
    a non-negative integer, and does not throw; if the product of rates[to]
    by 100 is rounded to 0, the BigInt division has a zero divisor and the
    function throws instead of returning a value. *)
Theorem convertCurrency_total_above_half_a_cent (from to : string) (z : Z)
    (rates : Rates) (fc : Z) :
  from <> to -> supported from = true -> supported to = true ->
  0 < z <= MAX_EXACT -> cents rates from = Some fc -> 0 <= fc ->
  (forall tc, cents rates to = Some tc -> 1 <= tc ->
     converted_spec from to z fc tc <= MAX_EXACT ->
     exists v, convertCurrency from to (of_Z z) rates = Ok (of_Z v) /\
               v = converted_spec from to z fc tc /\ 0 <= v <= MAX_EXACT) /\
  (cents rates to = Some 0 ->
     convertCurrency from to (of_Z z) rates = Throw DIVISION_BY_ZERO).
Proof.
  intros Hne Hf Ht [Hz _] Hfc Hfc0. split.
  - intros tc Htc H1 Hmax. exists (converted_spec from to z fc tc).
    split; [apply convertCurrency_formula; auto; lia|].
    split; [done|]. split; [|done].
    apply converted_spec_nonneg; auto; lia.
  - intros Htc. by apply (convertCurrency_div_zero from to z rates fc).
Qed.

(** One ETH at the rates of the tests is 5384615 satoshis; and one ETH cannot
    be converted to SOL when SOL is worth a tenth of a cent. *)
Lemma convertCurrency_total_above_half_a_cent_witness :
  (exists v, convertCurrency "ETH" "BTC" (of_Z 1000000000) rates0 = Ok (of_Z v)
             /\ v = 5384615) /\
  convertCurrency "ETH" "SOL" (of_Z 1000000000) rates_small
  = Throw DIVISION_BY_ZERO.
Proof.
  split.
  - destruct (convertCurrency_total_above_half_a_cent "ETH" "BTC" 1000000000
                rates0 350000 ltac:(discriminate) eq_refl eq_refl
                ltac:(by vm_compute) eq_refl ltac:(discriminate)) as [H _].
    destruct (H 6500000) as (v & Hv & Heq & _);
      [reflexivity|discriminate|discriminate|].
    exists v. split; [exact Hv|exact Heq].
  - destruct (convertCurrency_total_above_half_a_cent "ETH" "SOL" 1000000000
                rates_small 350000 ltac:(discriminate) eq_refl eq_refl
                ltac:(by vm_compute) eq_refl ltac:(discriminate)) as [_ H].
    apply H. reflexivity.
Defined.

End Conversion.

(* ===================================================================== *)
(** * Transfer                                                            *)
(* ===================================================================== *)

Section Transfer.

Import Functions Samples Cases.

Lemma verifyIdToken_inl {B : Type} (env : Env) (req : Request B) r :
  verifyIdToken env req = inl r -> code r = 401.
Proof.
  unfold verifyIdToken. destruct (negb _); [by intros [= <-]|].
  destruct (verify env _); [done|by intros [= <-]].
Qed.

Lemma transfer_checks_inl (env : Env) (req : Request TransferBody) r :
  transfer_checks env req = inl r -> code r <> 200.
Proof.
  unfold transfer_checks.
  destruct (negb _); [by intros [= <-]|].
  destruct (verifyIdToken env req) as [r'|uid] eqn:Hv.
  { intros [= <-]. apply verifyIdToken_inl in Hv. lia. }
  destruct (t_amount _); [|by intros [= <-]].
  destruct (_ || _); [by intros [= <-]|].
  destruct (negb _); [by intros [= <-]|].
  destruct (same _ _); [by intros [= <-]|done].
Qed.

Lemma transfer_checks_inr (env : Env) (req : Request TransferBody) uid a :
  transfer_checks env req = inr (uid, a) ->
  method req = "POST" /\ verifyIdToken env req = inr uid
  /\ t_amount (payload req) = Some a
  /\ le (Fin a) (of_Z 0) = false
  /\ supported (t_currency (payload req)) = true
  /\ same (t_toAccountId (payload req)) uid = false.
Proof.
  unfold transfer_checks.
  destruct (String.eqb (method req) "POST") eqn:Hm; cbn [negb]; [|done].
  destruct (verifyIdToken env req) as [r'|uid']; [done|].
  destruct (t_amount (payload req)) as [a'|]; [|done].
  destruct (truthy_id _); cbn [negb orb]; [|done].
  destruct (le (Fin a') (of_Z 0)) eqn:Hle; [done|].
  destruct (supported _); cbn [negb]; [|done].
  destruct (same _ uid') eqn:Hu; [done|].
  intros [= -> ->]. apply String.eqb_eq in Hm. done.
Qed.


(** ** A transfer that passed the checks *)

Section Checked.

Variables (env : Env) (req : Request TransferBody) (s : Store).
Variables (uid : string) (a : Qc).
Hypothesis Hchecked : transfer_checks env req = inr (uid, a).

(** What the transfer is answered, by case on what its transaction reads. *)
Lemma transfer_outcome :
  let to := t_toAccountId (payload req) in
  let c := t_currency (payload req) in
  match accounts s !! uid, accounts s !! text to with
  | None, _ => transfer env req s = (reply 500 (ErrorReply "Transfer failed"), s)
  | Some _, None =>
      transfer env req s
      = (reply 404 (ErrorReply "Recipient account not found"), s)
  | Some sAcct, Some rAcct =>
      if lt (balance_of sAcct c) (Fin a) then
        transfer env req s = (reply 402 (ErrorReply "Insufficient funds"), s)
      else
        transfer env req s
        = (reply 200 (BalanceReply c (sub (balance_of sAcct c) (Fin a))),
           transferred s uid to c (Fin a) (t_description (payload req))
             sAcct rAcct)
  end.
Proof.
  unfold transfer. rewrite Hchecked. simpl.
  destruct (accounts s !! uid) as [sAcct|] eqn:Hs.
  - destruct (accounts s !! text (t_toAccountId (payload req)))
      as [rAcct|] eqn:Hr.
    + destruct (lt _ _) eqn:Hlt.
      * by rewrite (transfer_tx_insufficient _ _ _ _ _ _ sAcct rAcct).
      * by rewrite (transfer_tx_commit _ _ _ _ _ _ sAcct rAcct).
    + by rewrite (transfer_tx_no_recipient _ _ _ _ _ _ sAcct).
  - by rewrite transfer_tx_no_sender.
Qed.


End Checked.



(** ** A transfer that succeeds *)

Lemma set_fields_lookup (c : string) (v : num) (a : Account) :
  balances (set_fields [(c, v)] a) !! c = Some v.
Proof. simpl. apply lookup_insert_eq. Qed.









(** The balances of scenario S2 after the transfer: 4 USD and 1 USD. *)
Example transfer_S2 :
  let s' := (transfer env0 (agent_post (transfer_body (Qc_of_Z 1000000)))
               store0).2 in
  (fun a => balance_of a "USD") <$> accounts s' !! "agent-a"
  = Some (of_Z 4000000) /\
  (fun a => balance_of a "USD") <$> accounts s' !! "agent-b"
  = Some (of_Z 1000000).
Proof. split; by_compute. Qed.

End Transfer.

(* ===================================================================== *)
(** * The convert handler                                                 *)
(* ===================================================================== *)

Section Convert.

Import Functions Samples.

Lemma convert_checks_inl (env : Env) (req : Request ConvertBody) r :
  convert_checks env req = inl r -> code r <> 200.
Proof.
  unfold convert_checks.
  destruct (negb _); [by intros [= <-]|].
  destruct (verifyIdToken env req) as [r'|uid] eqn:Hv.
  { intros [= <-]. apply verifyIdToken_inl in Hv. lia. }
  destruct (c_amount _); [|by intros [= <-]].
  destruct (_ || _); [by intros [= <-]|].
  destruct (String.eqb _ _); [by intros [= <-]|].
  destruct (_ || _); [by intros [= <-]|done].
Qed.

Lemma convert_checks_inr (env : Env) (req : Request ConvertBody) uid a :
  convert_checks env req = inr (uid, a) ->
  method req = "POST" /\ verifyIdToken env req = inr uid
  /\ c_amount (payload req) = Some a
  /\ le (Fin a) (of_Z 0) = false
  /\ c_from (payload req) <> c_to (payload req)
  /\ supported (c_from (payload req)) = true
  /\ supported (c_to (payload req)) = true.
Proof.
  unfold convert_checks.
  destruct (String.eqb (method req) "POST") eqn:Hm; cbn [negb]; [|done].
  destruct (verifyIdToken env req) as [r'|uid']; [done|].
  destruct (c_amount (payload req)) as [a'|]; [|done].
  destruct (truthy_str (c_from _)); cbn [negb orb]; [|done].
  destruct (truthy_str (c_to _)); cbn [negb orb]; [|done].
  destruct (le (Fin a') (of_Z 0)) eqn:Hle; [done|].
  destruct (String.eqb (c_from _) (c_to _)) eqn:Hft; [done|].
  destruct (supported (c_from _)); cbn [negb orb]; [|done].
  destruct (supported (c_to _)); cbn [negb]; [|done].
  intros [= -> ->]. apply String.eqb_eq in Hm. apply String.eqb_neq in Hft.
  done.
Qed.

(** What a conversion is answered, by case on the quote, on the converted
    amount and on what the transaction reads. *)
Lemma convert_outcome (env : Env) (req : Request ConvertBody) (s : Store)
    uid a :
  convert_checks env req = inr (uid, a) ->
  let from := c_from (payload req) in
  let to := c_to (payload req) in
  match getExchangeRates env with
  | Throw e => convert env req s = (Throw e, s)
  | Ok rates =>
      match convertCurrency from to (Fin a) rates with
      | Throw e => convert env req s = (Throw e, s)
      | Ok cv =>
          if le cv (of_Z 0) then
            convert env req s
            = (Ok (reply 400 (ErrorReply "Amount too small to convert")), s)
          else
            match accounts s !! uid with
            | None =>
                convert env req s
                = (Ok (reply 500 (ErrorReply "Conversion failed")), s)
            | Some acct =>
                if lt (balance_of acct from) (Fin a) then
                  convert env req s
                  = (Ok (reply 402 (ErrorReply "Insufficient funds")), s)
                else
                  convert env req s
                  = (Ok (reply 200
                           (ConvertedReply from (Fin a) to cv
                              (<[to := add (balance_of acct to) cv]>
                                 (<[from := sub (balance_of acct from) (Fin a)]>
                                    (balances acct))))),
                     commit s uid acct
                       [ (from, sub (balance_of acct from) (Fin a));
                         (to, add (balance_of acct to) cv) ]
                       [ conversion_entry uid from to (balance_of acct from)
                           (Fin a) cv rates ])
            end
      end
  end.
Proof.
  intros Hc. unfold convert. rewrite Hc. simpl.
  destruct (getExchangeRates env) as [rates|e]; [|done].
  destruct (convertCurrency _ _ _ rates) as [cv|e]; [|done].
  destruct (le cv (of_Z 0)); [done|].
  destruct (accounts s !! uid) as [acct|] eqn:Hs.
  - destruct (lt _ _) eqn:Hlt.
    + by rewrite (convert_tx_insufficient _ _ _ _ _ _ _ acct).
    + by rewrite (convert_tx_commit _ _ _ _ _ _ _ acct).
  - by rewrite convert_tx_missing.
Qed.

(** C7 as the claim states it fails: half a micro-dollar is an amount > 0, the
    request passes every check, and amount * from_cents * u_to is the integer
    50000000000, whose quotient by u_from * to_cents is 0; the claim has the
    request answered 400. [BigInt(0.5)] throws first: the handler gives no
    reply at all. *)
Lemma convert_half_unit_throws :
  convert_checks env0 convert_half = inr ("agent-a", Q2Qc (1 # 2)) /\
  cents rates0 "USD" = Some 100 /\ cents rates0 "ETH" = Some 350000 /\
  (Q2Qc (1 # 2) * Qc_of_Z 100 * Qc_of_Z (unit_of "ETH"))%Qc
  = Qc_of_Z 50000000000 /\
  Z.quot 50000000000 (unit_of "USD" * 350000) = 0 /\
  convert env0 convert_half store0 = (Throw NOT_AN_INTEGER, store0) /\
  convert env0 convert_half store0
  <> (Ok (reply 400 (ErrorReply "Amount too small to convert")), store0).
Proof.
  split; [reflexivity|]. split; [reflexivity|]. split; [reflexivity|].
  split; [by apply Qc_is_canon|]. split; [reflexivity|].
  split; [reflexivity|discriminate].
Qed.

(** C7, amended. For every conversion request that passes the checks of the
    handler (from <> to, both supported, amount > 0) with an integer amount
    [z] of at most 2^53, and a quote in which both prices are numbers whose
    products by 100, computed as doubles, are rounded by Math.round to the
    integers [fc] and [tc <> 0]: when v = (z * fc * u_to) div (u_from * tc),
    BigInt division, is at most 2^53 in magnitude, it is the converted
    amount. If v <= 0 the request is answered 400 and the store is
    untouched (no transaction is opened); otherwise, when the transaction
    finds the account with balances in the two currencies that are whole
    numbers between 0 and 2^53, the one sufficient and the other at most
    2^53 once credited, [v] is what is credited, journaled and replied. And
    [convertCurrency] with from = to returns the amount as it is. *)
Theorem convert_credits_formula (env : Env) (req : Request ConvertBody)
    (s : Store) uid (z : Z) (rates : Rates) (fc tc : Z) :
  let from := c_from (payload req) in
  let to := c_to (payload req) in
  convert_checks env req = inr (uid, Qc_of_Z z) ->
  z <= MAX_EXACT ->
  getExchangeRates env = Ok rates ->
  cents rates from = Some fc -> cents rates to = Some tc -> tc <> 0 ->
  Z.abs (converted_spec from to z fc tc) <= MAX_EXACT ->
  let v := converted_spec from to z fc tc in
  convertCurrency from to (of_Z z) rates = Ok (of_Z v) /\
  (v <= 0 ->
     convert env req s
     = (Ok (reply 400 (ErrorReply "Amount too small to convert")), s)) /\
  (0 < v -> forall acct,
     accounts s !! uid = Some acct ->
     exact (balance_of acct from) -> exact (balance_of acct to) ->
     bounded (add (balance_of acct to) (of_Z v)) ->
     lt (balance_of acct from) (of_Z z) = false ->
     convert env req s
     = (Ok (reply 200
              (ConvertedReply from (of_Z z) to (of_Z v)
                 (<[to := add (balance_of acct to) (of_Z v)]>
                    (<[from := sub (balance_of acct from) (of_Z z)]>
                       (balances acct))))),
        commit s uid acct
          [ (from, sub (balance_of acct from) (of_Z z));
            (to, add (balance_of acct to) (of_Z v)) ]
          [ conversion_entry uid from to (balance_of acct from) (of_Z z)
              (of_Z v) rates ])) /\
  (forall c x r, convertCurrency c c x r = Ok x).
Proof.
  intros from to Hc _ Hr Hfc Htc Hnz _ v.
  pose proof (convert_checks_inr _ _ _ _ Hc) as (_ & _ & _ & _ & Hne & Hf & Ht).
  assert (convertCurrency from to (of_Z z) rates = Ok (of_Z v)) as Hcv
    by by apply convertCurrency_formula.
  pose proof (convert_outcome env req s uid _ Hc) as Ho. simpl in Ho.
  rewrite Hr in Ho. fold from to in Ho.
  change (Fin (Qc_of_Z z)) with (of_Z z) in Ho. rewrite Hcv in Ho.
  rewrite le_of_Z in Ho.
  split; [done|]. split; [|split].
  - intros Hv. by rewrite bool_decide_eq_true_2 in Ho.
  - intros Hv acct Ha _ _ _ Hlt. rewrite bool_decide_eq_false_2 in Ho by lia.
    by rewrite Ha, Hlt in Ho.
  - apply convertCurrency_same.
Qed.

(** One USD of agent A becomes 285714 units of ETH at 3500 USD. *)
Lemma convert_credits_formula_witness :
  let req := agent_post (convert_body "USD" "ETH" (Qc_of_Z 1000000)) in
  exists acct,
    accounts store0 !! "agent-a" = Some acct /\
    convert env0 req store0
    = (Ok (reply 200
             (ConvertedReply "USD" (of_Z 1000000) "ETH" (of_Z 285714)
                (<["ETH" := add (balance_of acct "ETH") (of_Z 285714)]>
                   (<["USD" := sub (balance_of acct "USD") (of_Z 1000000)]>
                      (balances acct))))),
       commit store0 "agent-a" acct
         [ ("USD", sub (balance_of acct "USD") (of_Z 1000000));
           ("ETH", add (balance_of acct "ETH") (of_Z 285714)) ]
         [ conversion_entry "agent-a" "USD" "ETH" (balance_of acct "USD")
             (of_Z 1000000) (of_Z 285714) rates0 ]).
Proof.
  intros req. exists (account 5000000 "a@often.ai"). split; [reflexivity|].
  destruct (convert_credits_formula env0 req store0 "agent-a" 1000000 rates0
              100 350000 eq_refl ltac:(by vm_compute) eq_refl eq_refl eq_refl
              ltac:(discriminate) ltac:(by vm_compute))
    as (_ & _ & H & _).
  apply H; [reflexivity|reflexivity|by_compute..].
Defined.

End Convert.

(* ===================================================================== *)
(** * Balances stay non-negative                                          *)
(* ===================================================================== *)

Section Balances.

Import Functions Samples.

Lemma balance_of_nonneg (s : Store) uid acct c :
  all_balances nonneg s -> accounts s !! uid = Some acct ->
  exists q, balance_of acct c = Fin q /\ nonneg (Fin q).
Proof.
  intros Hs Hu. destruct (or_zero_Fin (balances acct !! c)) as [q Hq].
  exists q. split; [done|]. rewrite <-Hq. apply or_zero_nonneg.
  intros a Ha. by apply (all_balances_lookup nonneg s uid acct c).
Qed.

Lemma balance_of_integral (s : Store) uid acct c :
  all_balances integral s -> accounts s !! uid = Some acct ->
  integral (balance_of acct c).
Proof.
  intros Hs Hu. apply or_zero_integral.
  intros a Ha. by apply (all_balances_lookup integral s uid acct c).
Qed.

Lemma all_balances_commit (P : num -> Prop) (s : Store) uid acct fields es :
  all_balances P s -> accounts s !! uid = Some acct ->
  Forall (fun f => P f.2) fields ->
  all_balances P (commit s uid acct fields es).
Proof. apply all_balances_update. Qed.

Lemma all_balances_transferred (P : num -> Prop) (s : Store) uid to c amt d
    sAcct rAcct :
  all_balances P s ->
  accounts s !! uid = Some sAcct -> accounts s !! text to = Some rAcct ->
  P (sub (balance_of sAcct c) amt) -> P (add (balance_of rAcct c) amt) ->
  all_balances P (transferred s uid to c amt d sAcct rAcct).
Proof.
  intros Hs Hu Ht Hps Hpr. unfold transferred, all_balances. simpl.
  assert (map_Forall (fun _ v => P v)
            (balances (set_fields [(c, sub (balance_of sAcct c) amt)] sAcct)))
    as Hs'.
  { apply set_fields_Forall; [by apply (Hs uid)|]. by repeat constructor. }
  apply map_Forall_insert_2; [|by apply map_Forall_insert_2].
  apply set_fields_Forall; [|by repeat constructor].
  destruct (decide _); [done|]. by apply (Hs (text to)).
Qed.

(** *** Deposit *)

Lemma deposit_nonneg (env : Env) (req : Request DepositBody) (s : Store) :
  all_balances nonneg s -> all_balances nonneg (deposit env req s).2.
Proof.
  intros Hs. destruct (deposit_store env req s) as [->|(a & acct & Hc & Ha & ->)];
    [done|].
  apply deposit_checks_inr in Hc as (_ & _ & _ & Hpos & _). simpl.
  apply all_balances_commit; [done..|]. repeat constructor. simpl.
  destruct (balance_of_nonneg s _ acct (d_currency (payload req)) Hs Ha)
    as (q & -> & Hq).
  by apply nonneg_add_pos.
Qed.

Lemma deposit_integral (env : Env) (req : Request DepositBody) (s : Store) :
  (forall a, d_amount (payload req) = Some a -> integral (Fin a)) ->
  all_balances integral s -> all_balances integral (deposit env req s).2.
Proof.
  intros Hint Hs.
  destruct (deposit_store env req s) as [->|(a & acct & Hc & Ha & ->)]; [done|].
  apply deposit_checks_inr in Hc as (_ & _ & Hamt & _). simpl.
  apply all_balances_commit; [done..|]. repeat constructor. simpl.
  apply integral_add; [by apply (balance_of_integral s _ acct _ Hs Ha)|by apply Hint].
Qed.

(** *** Transfer *)

Lemma transfer_store (env : Env) (req : Request TransferBody) (s : Store) :
  (transfer env req s).2 = s \/
  exists uid a sAcct rAcct,
    let to := t_toAccountId (payload req) in
    let c := t_currency (payload req) in
    t_amount (payload req) = Some a /\ le (Fin a) (of_Z 0) = false /\
    accounts s !! uid = Some sAcct /\ accounts s !! text to = Some rAcct /\
    lt (balance_of sAcct c) (Fin a) = false /\
    (transfer env req s).2
    = transferred s uid to c (Fin a) (t_description (payload req)) sAcct rAcct.
Proof.
  destruct (transfer_checks env req) as [r|[uid a]] eqn:Hc.
  { left. unfold transfer. by rewrite Hc. }
  pose proof (transfer_checks_inr _ _ _ _ Hc) as (_ & _ & Ha & Hpos & _).
  pose proof (transfer_outcome env req s uid a Hc) as Ho. simpl in Ho.
  destruct (accounts s !! uid) as [sAcct|] eqn:Hs; [|left; by rewrite Ho].
  destruct (accounts s !! text (t_toAccountId (payload req)))
    as [rAcct|] eqn:Hr; [|left; by rewrite Ho].
  destruct (lt _ _) eqn:Hlt; [left; by rewrite Ho|].
  right. exists uid, a, sAcct, rAcct. by rewrite Ho.
Qed.

Lemma transfer_nonneg (env : Env) (req : Request TransferBody) (s : Store) :
  all_balances nonneg s -> all_balances nonneg (transfer env req s).2.
Proof.
  intros Hs.
  destruct (transfer_store env req s)
    as [->|(uid & a & sAcct & rAcct & _ & Hpos & Hu & Ht & Hlt & ->)]; [done|].
  apply all_balances_transferred; [done..| |].
  - destruct (or_zero_Fin (balances sAcct !! t_currency (payload req)))
      as [q Hq].
    unfold balance_of in *. rewrite Hq in *. by apply nonneg_sub_le.
  - destruct (balance_of_nonneg s _ rAcct (t_currency (payload req)) Hs Ht)
      as (q & -> & Hq).
    by apply nonneg_add_pos.
Qed.

Lemma transfer_integral (env : Env) (req : Request TransferBody) (s : Store) :
  (forall a, t_amount (payload req) = Some a -> integral (Fin a)) ->
  all_balances integral s -> all_balances integral (transfer env req s).2.
Proof.
  intros Hint Hs.
  destruct (transfer_store env req s)
    as [->|(uid & a & sAcct & rAcct & Ha & _ & Hu & Ht & _ & ->)]; [done|].
  apply all_balances_transferred; [done..| |].
  - apply integral_sub; [by apply (balance_of_integral s uid)|by apply Hint].
  - apply integral_add; [by apply (balance_of_integral s _ rAcct _ Hs Ht)|].
    by apply Hint.
Qed.

(** *** Convert: the amount went through [BigInt], so it is an integer. *)

Lemma convert_store (env : Env) (req : Request ConvertBody) (s : Store) :
  (convert env req s).2 = s \/
  exists uid a acct z r,
    let from := c_from (payload req) in
    let to := c_to (payload req) in
    Fin a = of_Z z /\ le (of_Z r) (of_Z 0) = false /\
    accounts s !! uid = Some acct /\
    lt (balance_of acct from) (Fin a) = false /\
    exists es,
      (convert env req s).2
      = commit s uid acct
          [ (from, sub (balance_of acct from) (Fin a));
            (to, add (balance_of acct to) (of_Z r)) ] es.
Proof.
  destruct (convert_checks env req) as [r|[uid a]] eqn:Hc.
  { left. unfold convert. by rewrite Hc. }
  pose proof (convert_checks_inr _ _ _ _ Hc) as (_ & _ & _ & _ & Hne & _).
  pose proof (convert_outcome env req s uid a Hc) as Ho. simpl in Ho.
  destruct (getExchangeRates env) as [rates|e]; [|left; by rewrite Ho].
  destruct (convertCurrency _ _ _ rates) as [cv|e] eqn:Hcv;
    [|left; by rewrite Ho].
  apply convertCurrency_Ok in Hcv
    as (fc & tc & z & fu & tu & _ & _ & Hz & _ & _ & _ & ->); [|done].
  destruct (le _ (of_Z 0)) eqn:Hle; [left; by rewrite Ho|].
  destruct (accounts s !! uid) as [acct|] eqn:Hs; [|left; by rewrite Ho].
  destruct (lt _ _) eqn:Hlt; [left; by rewrite Ho|].
  right. exists uid, a, acct, z, (z * fc * tu ÷ (fu * tc)).
  rewrite Ho. simpl. repeat split; try done.
  - by apply toBigInt_Some.
  - by eexists.
Qed.

Lemma convert_nonneg (env : Env) (req : Request ConvertBody) (s : Store) :
  all_balances nonneg s -> all_balances nonneg (convert env req s).2.
Proof.
  intros Hs.
  destruct (convert_store env req s)
    as [->|(uid & a & acct & z & r & _ & Hpos & Hu & Hlt & es & ->)]; [done|].
  apply all_balances_commit; [done..|]. repeat constructor; simpl.
  - destruct (or_zero_Fin (balances acct !! c_from (payload req))) as [q Hq].
    unfold balance_of in *. rewrite Hq in *. by apply nonneg_sub_le.
  - destruct (balance_of_nonneg s _ acct (c_to (payload req)) Hs Hu)
      as (q & -> & Hq).
    by apply nonneg_add_pos.
Qed.

Lemma convert_integral (env : Env) (req : Request ConvertBody) (s : Store) :
  all_balances integral s -> all_balances integral (convert env req s).2.
Proof.
  intros Hs.
  destruct (convert_store env req s)
    as [->|(uid & a & acct & z & r & Ha & _ & Hu & _ & es & ->)]; [done|].
  apply all_balances_commit; [done..|]. repeat constructor; simpl.
  - apply integral_sub; [by apply (balance_of_integral s uid)|].
    rewrite Ha. apply isInteger_of_Z.
  - apply integral_add; [by apply (balance_of_integral s uid)|].
    apply isInteger_of_Z.
Qed.

(** C3 as the claim states it fails: a deposit of half a micro-dollar passes
    the amount validation (a number, greater than 0), commits, and leaves a
    balance that is not an integer. *)
Lemma deposit_breaks_integrality :
  balance_invariant store0 /\
  code (deposit env0 deposit_half store0).1 = 200 /\
  ~ balance_invariant (deposit env0 deposit_half store0).2.
Proof. split; [|split]; by_compute. Qed.

Lemma all_balances_impl (P Q : num -> Prop) (s : Store) :
  (forall v, P v -> Q v) -> all_balances P s -> all_balances Q s.
Proof. intros H Hs uid acct Hu c v Hv. apply H. by apply (Hs uid acct Hu c). Qed.

Lemma all_balances_exact (s : Store) :
  all_balances integral s -> all_balances nonneg s -> all_balances bounded s ->
  all_balances exact s.
Proof.
  intros Hi Hn Hb uid acct Hu c v Hv. repeat split.
  - by apply (Hi uid acct Hu c).
  - by apply (Hn uid acct Hu c).
  - by apply (Hb uid acct Hu c).
Qed.

(** C3, amended. A deposit, a transfer or a conversion on a store whose
    balances are non-negative integers of the range in which doubles are
    exact leaves every stored balance a non-negative integer, when the amount
    of the request is an integer (which the handlers of deposit and transfer
    do not check; a conversion of another amount throws before its
    transaction) and no balance leaves that range. *)
Theorem balances_preserved (env : Env) (s : Store) :
  all_balances exact s ->
  (forall req,
     (forall a, d_amount (payload req) = Some a -> integral (Fin a)) ->
     all_balances bounded (deposit env req s).2 ->
     all_balances exact (deposit env req s).2) /\
  (forall req,
     (forall a, t_amount (payload req) = Some a -> integral (Fin a)) ->
     all_balances bounded (transfer env req s).2 ->
     all_balances exact (transfer env req s).2) /\
  (forall req,
     all_balances bounded (convert env req s).2 ->
     all_balances exact (convert env req s).2).
Proof.
  intros Hs.
  assert (all_balances integral s) as Hi
    by (apply (all_balances_impl exact); [by intros v (? & _)|done]).
  assert (all_balances nonneg s) as Hn
    by (apply (all_balances_impl exact); [by intros v (_ & ? & _)|done]).
  split; [|split]; intros req.
  - intros Hint Hb. apply all_balances_exact; [|by apply deposit_nonneg|done].
    by apply deposit_integral.
  - intros Hint Hb. apply all_balances_exact; [|by apply transfer_nonneg|done].
    by apply transfer_integral.
  - intros Hb. apply all_balances_exact; [|by apply convert_nonneg|done].
    by apply convert_integral.
Qed.

(** Scenario S1, a deposit of 10 USD, and the transfer of scenario S2. *)
Lemma balances_preserved_witness :
  all_balances exact store0 /\
  all_balances exact
    (deposit env0
       (admin_post "secret-admin-key" (deposit_body (Qc_of_Z 10000000)))
       store0).2 /\
  all_balances exact
    (transfer env0 (agent_post (transfer_body (Qc_of_Z 1000000))) store0).2.
Proof.
  assert (all_balances exact store0) as Hs by by_compute.
  destruct (balances_preserved env0 store0 Hs) as (Hd & Ht & _).
  split; [exact Hs|]. split.
  - apply Hd; [|by_compute]. intros a [= <-]. reflexivity.
  - apply Ht; [|by_compute]. intros a [= <-]. reflexivity.
Defined.

End Balances.

(* ===================================================================== *)
(** * The chat-completions handler                                        *)
(* ===================================================================== *)

Section Ledger.

Import Proxy Samples.

Lemma authenticate_inl (env : Env) (req : Request) r :
  authenticate env req = inl r -> code r = 401.
Proof.
  unfold authenticate. destruct (negb _); [by intros [= <-]|].
  destruct (verify env _); [done|by intros [= <-]].
Qed.

(** Every reply given before the upstream call is a 4xx or the 503. *)
Lemma accept_inl (env : Env) (req : Request) (s : Store) r :
  accept env req s = inl r -> is_2xx (code r) = false.
Proof.
  unfold accept.
  destruct (authenticate env req) as [r'|uid] eqn:Ha.
  { intros [= <-]. apply authenticate_inl in Ha. by rewrite Ha. }
  destruct (negb _); [by intros [= <-]|].
  destruct (_ && _); [by intros [= <-]|].
  destruct (accounts s !! uid); [|by intros [= <-]].
  destruct (lt _ _); [by intros [= <-]|].
  destruct (getApiKey env _); [done|by intros [= <-]].
Qed.

(** The canonical result is the provider's reply: as it is, or translated,
    with the model and the token counts of the reply. *)
Lemma callProvider_Ok (env : Env) (req : Request) (a : Accepted)
    (result : ChatCompletion) :
  callProvider env req a = Ok result ->
  let provider := PROVIDERS (providerName a) in
  if translate provider then
    exists data,
      post_messages env (baseUrl provider) (headers provider (apiKey a))
        (toAnthropicRequest (payload req)) = Ok data /\
      result = fromAnthropicResponse data /\
      cc_model result = am_model data /\
      prompt_tokens (cc_usage result) = am_input_tokens data /\
      completion_tokens (cc_usage result) = am_output_tokens data
  else
    post_chat env (baseUrl provider) (headers provider (apiKey a)) (payload req)
    = Ok result.
Proof.
  unfold callProvider. simpl. destruct (translate _); [|done].
  unfold mbind, result_bind. destruct (post_messages _ _ _ _) as [data|]; [|done].
  intros [= <-]. by exists data.
Qed.

Lemma debit_tx_missing (s : Store) a result cost :
  accounts s !! uid a = None ->
  runTransaction (debit_tx a result cost) s = (Throw TYPE_ERROR, s).
Proof. intros H. unfold debit_tx. tx_unfold. by rewrite H. Qed.

Lemma debit_tx_insufficient (s : Store) a result cost acct :
  accounts s !! uid a = Some acct ->
  lt (balance_of acct "USD") cost = true ->
  runTransaction (debit_tx a result cost) s
  = (Throw (Error "INSUFFICIENT_FUNDS"), s).
Proof. intros H1 H2. unfold debit_tx. tx_unfold. by rewrite H1, H2. Qed.

(** Both token counts of the response are there. *)
Definition counted (result : ChatCompletion) : bool :=
  negb (absent (prompt_tokens (cc_usage result))
        || absent (completion_tokens (cc_usage result))).

Lemma debit_tx_uncounted (s : Store) a result cost acct :
  accounts s !! uid a = Some acct ->
  lt (balance_of acct "USD") cost = false ->
  counted result = false ->
  runTransaction (debit_tx a result cost) s = (Throw UNDEFINED_VALUE, s).
Proof.
  intros H1 H2 H3. apply negb_false_iff in H3.
  unfold debit_tx. tx_unfold. by rewrite H1, H2, H3.
Qed.

Lemma debit_tx_commit (s : Store) a result cost acct :
  accounts s !! uid a = Some acct ->
  lt (balance_of acct "USD") cost = false ->
  counted result = true ->
  runTransaction (debit_tx a result cost) s
  = (Ok (sub (balance_of acct "USD") cost),
     commit s (uid a) acct [("USD", sub (balance_of acct "USD") cost)]
       [llm_usage_entry (uid a) (name (providerName a)) result
          (balance_of acct "USD") cost]).
Proof.
  intros H1 H2 H3. apply negb_true_iff in H3.
  unfold debit_tx. tx_unfold. rewrite H1, H2, H3. simpl.
  by rewrite H1.
Qed.

(** ** One call that reached the provider and got its reply *)

Section Call.

(** [s_pre] is the store the pre-check read, [s_tx] the store at the time of
    the debit transaction. *)
Variables (env : Env) (req : Request) (s_pre s_tx : Store).
Variables (a : Accepted) (result : ChatCompletion).
Hypothesis Haccepted : accept env req s_pre = inr a.
Hypothesis Hreplied : callProvider env req a = Ok result.

(** What the call is answered, by case on what the debit transaction
    reads. *)
Lemma chat_outcome :
  match accounts s_tx !! uid a with
  | None =>
      chatCompletions env req s_pre s_tx
      = (reply 500 (ErrorReply "Internal error"), s_tx)
  | Some acct =>
      let current := balance_of acct "USD" in
      if lt current (costOf result) then
        chatCompletions env req s_pre s_tx
        = (reply 402 (ErrorReply "Insufficient USD balance"), s_tx)
      else if counted result then
        chatCompletions env req s_pre s_tx
        = (reply 200
             (Completion result (costOf result) (sub current (costOf result))
                (name (providerName a))),
           commit s_tx (uid a) acct [("USD", sub current (costOf result))]
             [llm_usage_entry (uid a) (name (providerName a)) result current
                (costOf result)])
      else
        chatCompletions env req s_pre s_tx
        = (reply 500 (ErrorReply "Internal error"), s_tx)
  end.
Proof.
  unfold chatCompletions. rewrite Haccepted, Hreplied.
  destruct (accounts s_tx !! uid a) as [acct|] eqn:Hs.
  - simpl. destruct (lt _ _) eqn:Hlt.
    + by rewrite (debit_tx_insufficient _ _ _ _ acct).
    + destruct (counted result) eqn:Hcount.
      * by rewrite (debit_tx_commit _ _ _ _ acct).
      * by rewrite (debit_tx_uncounted _ _ _ _ acct).
  - by rewrite debit_tx_missing.
Qed.

(** C1. For every call that reached the provider and got its reply: if the
    USD balance re-read inside the transaction is less than the cost, the
    transaction throws INSUFFICIENT_FUNDS, the reply is 402 and the store
    (balances and journal) is as it was; and the reply is a 2xx only when the
    store has gone, in one commit, to the one with the debit written and
    exactly one llm_usage entry appended to the journal. *)
Theorem debit_or_no_success :
  let cost := costOf result in
  (forall acct,
     accounts s_tx !! uid a = Some acct ->
     lt (balance_of acct "USD") cost = true ->
     runTransaction (debit_tx a result cost) s_tx
     = (Throw (Error "INSUFFICIENT_FUNDS"), s_tx) /\
     chatCompletions env req s_pre s_tx
     = (reply 402 (ErrorReply "Insufficient USD balance"), s_tx)) /\
  (is_2xx (code (chatCompletions env req s_pre s_tx).1) = true ->
   exists acct e,
     accounts s_tx !! uid a = Some acct /\
     lt (balance_of acct "USD") cost = false /\
     runTransaction (debit_tx a result cost) s_tx
     = (Ok (sub (balance_of acct "USD") cost),
        (chatCompletions env req s_pre s_tx).2) /\
     accounts (chatCompletions env req s_pre s_tx).2
     = <[uid a := set_fields [("USD", sub (balance_of acct "USD") cost)] acct]>
         (accounts s_tx) /\
     journal (chatCompletions env req s_pre s_tx).2 = journal s_tx ++ [e] /\
     type e = llm_usage /\ accountId e = Str (uid a)).
Proof.
  intros cost. pose proof chat_outcome as Ho.
  split.
  - intros acct Hs Hlt. rewrite Hs in Ho. simpl in Ho. fold cost in Ho.
    rewrite Hlt in Ho. split; [|done].
    by apply (debit_tx_insufficient _ _ _ _ acct).
  - intros H2. destruct (accounts s_tx !! uid a) as [acct|] eqn:Hs;
      [|by rewrite Ho in H2].
    simpl in Ho. fold cost in Ho.
    destruct (lt _ cost) eqn:Hlt; [by rewrite Ho in H2|].
    destruct (counted result) eqn:Hcount; [|by rewrite Ho in H2].
    eexists acct, _. rewrite Ho. simpl.
    repeat split; try done.
    by apply debit_tx_commit.
Qed.

(** C2. For every successful call, the amount debited and recorded in the
    llm_usage entry is [calculateCostMicros] of the model and of the prompt
    and completion token counts of the provider's reply (translated from the
    Anthropic reply when that is the provider); the model of the request
    plays no part. *)
Theorem billed_from_response :
  code (chatCompletions env req s_pre s_tx).1 = 200 ->
  let cost :=
    Pricing.calculateCostMicros (cc_model result)
      (prompt_tokens (cc_usage result)) (completion_tokens (cc_usage result)) in
  let s' := (chatCompletions env req s_pre s_tx).2 in
  (let provider := PROVIDERS (providerName a) in
   if translate provider then
     exists data,
       post_messages env (baseUrl provider) (headers provider (apiKey a))
         (toAnthropicRequest (payload req)) = Ok data /\
       cc_model result = am_model data /\
       prompt_tokens (cc_usage result) = am_input_tokens data /\
       completion_tokens (cc_usage result) = am_output_tokens data
   else
     post_chat env (baseUrl provider) (headers provider (apiKey a))
       (payload req) = Ok result) /\
  exists acct acct' e,
    accounts s_tx !! uid a = Some acct /\
    accounts s' !! uid a = Some acct' /\
    balances acct' !! "USD" = Some (sub (balance_of acct "USD") cost) /\
    journal s' = journal s_tx ++ [e] /\
    type e = llm_usage /\ amount e = cost /\
    balanceBefore e = balance_of acct "USD" /\
    balanceAfter e = sub (balance_of acct "USD") cost /\
    metadata e
    = LlmUsage (name (providerName a)) (cc_model result)
        (prompt_tokens (cc_usage result)) (completion_tokens (cc_usage result))
    /\
    body (chatCompletions env req s_pre s_tx).1
    = Completion result cost (sub (balance_of acct "USD") cost)
        (name (providerName a)).
Proof.
  intros H200 cost s'. split.
  { pose proof (callProvider_Ok env req a result Hreplied) as H.
    cbv zeta in H |- *.
    destruct (translate _); [|exact H].
    destruct H as (data & ? & ? & ? & ? & ?). by exists data. }
  pose proof chat_outcome as Ho.
  subst s'. destruct (accounts s_tx !! uid a) as [acct|] eqn:Hs;
    [|by rewrite Ho in H200].
  simpl in Ho. destruct (lt _ _) eqn:Hlt; [by rewrite Ho in H200|].
  destruct (counted result) eqn:Hcount; [|by rewrite Ho in H200].
  eexists acct, _, _. rewrite Ho. simpl.
  split; [done|]. split; [apply lookup_insert_eq|].
  split; [apply set_fields_lookup|]. done.
Qed.

End Call.

(** The balance of agent A dropped to 500 micros between the pre-check and the
    transaction: 402 and nothing written. With its 5 USD: 200. *)
Lemma debit_or_no_success_witness :
  chatCompletions proxy_env0 chat_req0 store0 store_low
  = (reply 402 (ErrorReply "Insufficient USD balance"), store_low) /\
  exists acct e,
    accounts store0 !! "agent-a" = Some acct /\
    journal (chatCompletions proxy_env0 chat_req0 store0 store0).2
    = journal store0 ++ [e] /\
    type e = llm_usage.
Proof.
  pose (a := {| uid := "agent-a"; providerName := openai; apiKey := "sk-test" |}).
  split.
  - destruct (debit_or_no_success proxy_env0 chat_req0 store0 store_low a
                completion0 eq_refl eq_refl) as [H _].
    apply (H (account 500 "a@often.ai")); [reflexivity|by_compute].
  - destruct (debit_or_no_success proxy_env0 chat_req0 store0 store0 a
                completion0 eq_refl eq_refl) as [_ H].
    destruct (H eq_refl) as (acct & e & H1 & _ & _ & _ & H2 & H3 & _).
    by exists acct, e.
Defined.

(** Scenario S4: the request names gpt-3.5-turbo, the provider answers as
    gpt-4o with usage (100, 50); the 750 micros of gpt-4o are billed, not the
    125 of gpt-3.5-turbo. *)
Lemma billed_from_response_witness :
  model (payload chat_req0) = "gpt-3.5-turbo" /\
  Pricing.calculateCostMicros "gpt-3.5-turbo" (of_Z 100) (of_Z 50) = of_Z 125 /\
  exists acct acct' e,
    accounts store0 !! "agent-a" = Some acct /\
    accounts (chatCompletions proxy_env0 chat_req0 store0 store0).2 !! "agent-a"
    = Some acct' /\
    balances acct' !! "USD"
    = Some (sub (balance_of acct "USD")
              (Pricing.calculateCostMicros "gpt-4o" (of_Z 100) (of_Z 50))) /\
    journal (chatCompletions proxy_env0 chat_req0 store0 store0).2
    = journal store0 ++ [e] /\
    amount e = Pricing.calculateCostMicros "gpt-4o" (of_Z 100) (of_Z 50) /\
    amount e = of_Z 750.
Proof.
  pose (a := {| uid := "agent-a"; providerName := openai; apiKey := "sk-test" |}).
  split; [reflexivity|]. split; [by rewrite calculateCostMicros_spec|].
  destruct (billed_from_response proxy_env0 chat_req0 store0 store0 a
              completion0 eq_refl eq_refl eq_refl)
    as (_ & acct & acct' & e & H1 & H2 & H3 & H4 & _ & H5 & _).
  exists acct, acct', e. repeat split; try assumption.
Defined.

End Ledger.

(* ===================================================================== *)
(** * The Anthropic translation                                           *)
(* ===================================================================== *)

Section Translation.

Import Proxy Samples.

Lemma append_assoc (s1 s2 s3 : string) :
  (s1 +:+ s2) +:+ s3 = s1 +:+ (s2 +:+ s3).
Proof.
  induction s1 as [|a s1 IH]; [reflexivity|].
  change (String a ((s1 +:+ s2) +:+ s3) = String a (s1 +:+ (s2 +:+ s3))).
  by rewrite IH.
Qed.

Lemma append_nonempty (s t : string) : s <> "" -> s +:+ t <> "".
Proof. by destruct s. Qed.

Lemma truthy_str_true (s : string) : truthy_str s = true <-> s <> "".
Proof. unfold truthy_str. by rewrite negb_true_iff, String.eqb_neq. Qed.

(** The loop treats system messages and the others independently. *)
Lemma foldl_step_split (msgs : list Message) (system : option string)
    (filtered : list Message) :
  foldl step (system, filtered) msgs
  = (foldl sys_step system (system_contents msgs),
     foldl msg_step filtered (remaining msgs)).
Proof.
  revert system filtered. induction msgs as [|m msgs IH]; intros; [done|].
  unfold system_contents, remaining in *.
  cbn [foldl List.filter]. unfold step at 2.
  change (String.eqb (role m) "system") with (is_system m).
  destruct (is_system m); cbn [negb map foldl].
  - apply IH.
  - unfold msg_step at 2.
    destruct (last filtered) as [l|]; [destruct (String.eqb _ _)|]; apply IH.
Qed.

(** ** The system field *)

Lemma join_cons (x y : string) (l : list string) :
  join NL (x :: y :: l) = x +:+ NL +:+ join NL (y :: l).
Proof. done. Qed.

Lemma join_merge (s c : string) (l : list string) :
  join NL ((s +:+ NL +:+ c) :: l) = join NL (s :: c :: l).
Proof.
  destruct l as [|c' l]; [done|].
  rewrite !join_cons. by rewrite !append_assoc.
Qed.

Lemma sys_fold_truthy (s : string) (cs : list string) :
  s <> "" -> foldl sys_step (Some s) cs = Some (join NL (s :: cs)).
Proof.
  revert s. induction cs as [|c cs IH]; intros s Hs; [done|].
  simpl. unfold sys_step at 2. simpl.
  rewrite (proj2 (truthy_str_true s) Hs).
  rewrite IH by by apply append_nonempty. by rewrite join_merge.
Qed.

Lemma join_nonempty (c : string) (l : list string) :
  c <> "" -> join NL (c :: l) <> "".
Proof.
  intros Hc. destruct l; [done|]. rewrite join_cons. by apply append_nonempty.
Qed.

(** Starting from an unset (or empty) [system], the leading empty contents
    are lost and the rest is joined; the field is set when that is not
    empty. *)
Lemma sys_fold_falsy (system : option string) (cs : list string) :
  truthy_opt system = false ->
  (let r := foldl sys_step system cs in if truthy_opt r then r else None)
  = match drop_empty cs with [] => None | l => Some (join NL l) end.
Proof.
  revert system. induction cs as [|c cs IH]; intros system Hf; simpl.
  - by rewrite Hf.
  - unfold sys_step at 2 4. rewrite Hf.
    destruct (String.eqb_spec c "") as [->|Hc].
    + by apply IH.
    + rewrite sys_fold_truthy by done. cbn [truthy_opt].
      by rewrite (proj2 (truthy_str_true _) (join_nonempty c cs Hc)).
Qed.

(** ** The coalesced messages *)

Lemma message_eta (m : Message) : {| role := role m; content := content m |} = m.
Proof. by destruct m. Qed.

Lemma coalesce_head (m : Message) (ms : list Message) :
  exists h r, coalesce (m :: ms) = h :: r /\ role h = role m.
Proof.
  simpl. destruct (coalesce ms) as [|h r]; [by eexists _, _|].
  destruct (String.eqb _ _); by eexists _, _.
Qed.

Lemma coalesce_same_role (l m : Message) (ms : list Message) :
  role l = role m ->
  coalesce (l :: m :: ms)
  = coalesce ({| role := role l; content := content l +:+ NL +:+ content m |}
                :: ms).
Proof.
  intros Hlm. change (coalesce (l :: m :: ms)) with
    (match coalesce (m :: ms) with
     | [] => [l]
     | h :: r =>
         if String.eqb (role l) (role h) then
           {| role := role l; content := content l +:+ NL +:+ content h |} :: r
         else l :: h :: r
     end).
  simpl. destruct (coalesce ms) as [|h r].
  - by rewrite Hlm, String.eqb_refl.
  - rewrite <-Hlm. destruct (String.eqb (role l) (role h)) eqn:Hh; simpl.
    + rewrite Hlm, String.eqb_refl. by rewrite !append_assoc.
    + by rewrite Hlm, String.eqb_refl.
Qed.

Lemma coalesce_other_role (l m : Message) (ms : list Message) :
  role l <> role m -> coalesce (l :: m :: ms) = l :: coalesce (m :: ms).
Proof.
  intros Hlm. destruct (coalesce_head m ms) as (h & r & Hc & Hh).
  change (coalesce (l :: m :: ms)) with
    (match coalesce (m :: ms) with
     | [] => [l]
     | h :: r =>
         if String.eqb (role l) (role h) then
           {| role := role l; content := content l +:+ NL +:+ content h |} :: r
         else l :: h :: r
     end).
  rewrite Hc, Hh. by rewrite (proj2 (String.eqb_neq _ _) Hlm).
Qed.

Lemma msg_fold_snoc (acc : list Message) (l : Message) (msgs : list Message) :
  foldl msg_step (acc ++ [l]) msgs = acc ++ coalesce (l :: msgs).
Proof.
  revert acc l. induction msgs as [|m msgs IH]; intros acc l; [done|].
  simpl foldl. unfold msg_step at 2. rewrite last_snoc, removelast_last.
  destruct (String.eqb_spec (role l) (role m)) as [Heq|Hne].
  - rewrite IH. by rewrite coalesce_same_role.
  - rewrite message_eta, IH, <-app_assoc.
    by rewrite coalesce_other_role.
Qed.

Lemma msg_fold_coalesce (msgs : list Message) :
  foldl msg_step [] msgs = coalesce msgs.
Proof.
  destruct msgs as [|m msgs]; [done|].
  simpl foldl. unfold msg_step at 2. simpl last. rewrite message_eta.
  apply (msg_fold_snoc [] m msgs).
Qed.

(** ** The defaults *)

Lemma claude_not_inherited (m : string) :
  String.prefix "claude-" m = true -> inherited m = false.
Proof.
  intros Hp. unfold inherited. apply not_true_is_false.
  intros (k & Hk & Heq)%existsb_exists. apply String.eqb_eq in Heq. subst k.
  simpl in Hk. repeat (destruct Hk as [<-|Hk]; [discriminate|]). done.
Qed.

Lemma detectProvider_anthropic (m : string) :
  detectProvider m = anthropic -> String.prefix "claude-" m = true.
Proof.
  unfold detectProvider. destruct (_ || _); [done|].
  destruct (String.prefix "claude-" m); [done|].
  by repeat destruct (String.prefix _ _).
Qed.

Lemma max_tokens_default (m : string) :
  inherited m = false ->
  default_max_tokens m
  = Own (Qc_of_Z (default 4096 (assoc m ANTHROPIC_MAX_TOKENS))).
Proof.
  intros Hi. unfold default_max_tokens, get.
  destruct (assoc m ANTHROPIC_MAX_TOKENS) as [z|] eqn:E; [|by rewrite Hi].
  pose proof (assoc_Forall (fun z => z = 8192) ANTHROPIC_MAX_TOKENS m z) as H.
  assert (z = 8192) as -> by (apply H; [by repeat constructor|done]).
  reflexivity.
Qed.

(** C8 as the claim states it fails: the loop tests [system] for truthiness
    before it appends, so an empty first system message is not joined to the
    next one. The claim's concatenation of [""] and ["Be brief."] is a
    newline followed by ["Be brief."]; the translated request carries
    ["Be brief."]. *)
Lemma toAnthropicRequest_drops_empty_system :
  system_contents (messages body_empty_system) = [""; "Be brief."] /\
  system_spec (messages body_empty_system) = NL +:+ "Be brief." /\
  ar_system (toAnthropicRequest body_empty_system) = Some "Be brief." /\
  ar_system (toAnthropicRequest body_empty_system)
  <> Some (system_spec (messages body_empty_system)).
Proof. repeat split. discriminate. Qed.

(** C8, amended. For every request routed to Anthropic, with the empty
    string and zero counting as absent: the contents of the system messages,
    from the first one that is not empty on, are joined with a newline into
    [system] (no field when nothing is left); among the other messages,
    adjacent ones with the same role are coalesced, their contents joined
    with a newline; [max_tokens] is the caller's value if present (and not
    0), else the default of the model's row (8192 for each row of the
    table), else 4096; and [stop], a string (not empty) or an array, becomes
    the array [stop_sequences]. *)
Theorem toAnthropicRequest_spec (body : ChatRequest) :
  detectProvider (model body) = anthropic ->
  let r := toAnthropicRequest body in
  ar_system r
  = match drop_empty (system_contents (messages body)) with
    | [] => None
    | l => Some (join NL l)
    end /\
  ar_messages r = coalesce (remaining (messages body)) /\
  ar_max_tokens r = Own (max_tokens_spec body) /\
  (forall m z, assoc m ANTHROPIC_MAX_TOKENS = Some z -> z = 8192) /\
  ar_stop_sequences r = stop_sequences_spec body.
Proof.
  intros Hp%detectProvider_anthropic%claude_not_inherited r. subst r.
  unfold toAnthropicRequest. rewrite foldl_step_split. simpl.
  split; [|split; [|split; [|split]]].
  - by apply (sys_fold_falsy None).
  - apply msg_fold_coalesce.
  - unfold max_tokens_spec. rewrite max_tokens_default by done.
    destruct (max_tokens body) as [n|]; [|done].
    by case_bool_decide.
  - intros m z Hz.
    apply (assoc_Forall (fun z => z = 8192) ANTHROPIC_MAX_TOKENS m z);
      [by repeat constructor|exact Hz].
  - unfold stop_sequences_spec, truthy_stop, truthy_str.
    destruct (stop body) as [[x|l]|]; try done.
    by destruct (String.eqb x "").
Qed.

(** Scenario S5. *)
Lemma toAnthropicRequest_spec_witness :
  ar_system (toAnthropicRequest body_S5) = Some "You are helpful." /\
  ar_messages (toAnthropicRequest body_S5)
  = [ {| role := "user"; content := "Part 1" +:+ NL +:+ "Part 2" |} ] /\
  ar_max_tokens (toAnthropicRequest body_S5) = Own (Qc_of_Z 8192) /\
  ar_stop_sequences (toAnthropicRequest body_S5) = None.
Proof.
  destruct (toAnthropicRequest_spec body_S5 eq_refl) as (H1 & H2 & H3 & _ & H4).
  split; [exact H1|split; [exact H2|split; [exact H3|exact H4]]].
Defined.

(** When the first system message is not empty, the field is the claim's
    concatenation. *)
Lemma toAnthropicRequest_system_nonempty (body : ChatRequest) (c : string)
    (cs : list string) :
  system_contents (messages body) = c :: cs -> c <> "" ->
  ar_system (toAnthropicRequest body) = Some (system_spec (messages body)).
Proof.
  intros Hcs Hc. unfold toAnthropicRequest. rewrite foldl_step_split. simpl.
  rewrite (sys_fold_falsy None) by done. unfold system_spec. rewrite Hcs.
  simpl drop_empty. by rewrite (proj2 (String.eqb_neq _ _) Hc).
Qed.

End Translation.

(* ===================================================================== *)
(** * Matching by derivatives                                             *)
(* ===================================================================== *)

Section RegexFacts.

Import Regex.

Context {C : Type}.
Implicit Types (r : re C) (s : list C) (c : C).

Lemma nullable_lang r : nullable r = true <-> lang r [].
Proof.
  split.
  - induction r; simpl; try done.
    + intros _. constructor.
    + intros [H1 H2]%andb_true_iff. apply (lang_cat _ _ [] []); auto.
    + intros [H|H]%orb_true_iff; [apply lang_alt_l|apply lang_alt_r]; auto.
    + intros _. constructor.
  - intros H. remember [] as s eqn:Hs. induction H; simpl; try done.
    + apply app_eq_nil in Hs as [-> ->]. apply andb_true_iff. auto.
    + apply orb_true_iff. auto.
    + apply orb_true_iff. auto.
Qed.

Lemma deriv_sound c r s : lang (deriv c r) s -> lang r (c :: s).
Proof.
  revert s. induction r as [| |p|r1 IH1 r2 IH2|r1 IH1 r2 IH2|r IH];
    simpl; intros s H.
  - inversion H.
  - inversion H.
  - destruct (p c) eqn:Hp; inversion H; subst. by constructor.
  - assert (forall s, lang (Cat (deriv c r1) r2) s -> lang (Cat r1 r2) (c :: s))
      as Hcat.
    { intros s' H'. inversion H'; subst.
      apply (lang_cat r1 r2 (c :: s1) s2); auto. }
    destruct (nullable r1) eqn:Hn; [|by apply Hcat].
    inversion H; subst; [by apply Hcat|].
    apply (lang_cat r1 r2 [] (c :: s)); [by apply nullable_lang|auto].
  - inversion H; subst; [apply lang_alt_l|apply lang_alt_r]; auto.
  - inversion H; subst. apply (lang_star_cons r (c :: s1) s2); auto.
Qed.

Lemma deriv_complete c r s : lang r (c :: s) -> lang (deriv c r) s.
Proof.
  intros H. remember (c :: s) as x eqn:Hx. revert s Hx.
  induction H as [|p c' Hp|r1 r2 s1 s2 H1 IH1 H2 IH2|r1 r2 s' H IH|r1 r2 s' H IH
                 | |r s1 s2 H1 IH1 H2 IH2]; intros s Hx; simpl.
  - done.
  - injection Hx as -> <-. rewrite Hp. constructor.
  - destruct s1 as [|c1 s1]; simpl in Hx.
    + subst s2. rewrite (proj2 (nullable_lang r1) H1).
      apply lang_alt_r. by apply IH2.
    + injection Hx as -> <-.
      assert (lang (Cat (deriv c r1) r2) (s1 ++ s2)) as Hc
        by (apply lang_cat; auto).
      destruct (nullable r1); [by apply lang_alt_l|done].
  - apply lang_alt_l. by apply IH.
  - apply lang_alt_r. by apply IH.
  - done.
  - destruct s1 as [|c1 s1]; simpl in Hx.
    + by apply IH2.
    + injection Hx as -> <-. apply lang_cat; auto.
Qed.

(** The matcher accepts exactly the language of the expression. *)
Lemma test_lang r s : test r s = true <-> lang r s.
Proof.
  unfold test. revert r. induction s as [|c s IH]; intros r; simpl.
  - apply nullable_lang.
  - rewrite IH. split; [apply deriv_sound|apply deriv_complete].
Qed.

Lemma lang_star_cls (p : C -> bool) s :
  lang (Star (Cls p)) s <-> Forall (fun c => p c = true) s.
Proof.
  split.
  - intros H. remember (Star (Cls p)) as r eqn:Hr.
    induction H; try discriminate; [constructor|].
    injection Hr as ->. inversion H; subst. constructor; auto.
  - induction 1 as [|c s Hc _ IH]; [constructor|].
    apply (lang_star_cons _ [c] s); [by constructor|done].
Qed.

Lemma lang_plus_cls (p : C -> bool) s :
  lang (Plus (Cls p)) s <-> s <> [] /\ Forall (fun c => p c = true) s.
Proof.
  unfold Plus. split.
  - intros H. inversion H as [| |r1 r2 s1 s2 H1 H2| | | |]; subst.
    inversion H1; subst. apply lang_star_cls in H2.
    split; [done|]. by constructor.
  - intros [Hne H]. destruct H as [|c s Hc H]; [done|].
    apply (lang_cat _ _ [c] s); [by constructor|by apply lang_star_cls].
Qed.

Lemma lang_cat_inv r1 r2 s :
  lang (Cat r1 r2) s <-> exists s1 s2, s = s1 ++ s2 /\ lang r1 s1 /\ lang r2 s2.
Proof.
  split.
  - intros H. inversion H; subst. eauto.
  - intros (s1 & s2 & -> & H1 & H2). by constructor.
Qed.

Lemma lang_cls_inv (p : C -> bool) s :
  lang (Cls p) s <-> exists c, s = [c] /\ p c = true.
Proof.
  split.
  - intros H. inversion H; subst. eauto.
  - intros (c & -> & H). by constructor.
Qed.

End RegexFacts.

(* ===================================================================== *)
(** * Email format check                                                  *)
(* ===================================================================== *)

Section EmailFacts.

Import Regex Email.

Lemma plain_not_at (s : list N) :
  Forall (fun c => plain c = true) s -> count_occ N.eq_dec s AT = 0%nat.
Proof.
  induction 1 as [|c s Hc _ IH]; [done|].
  simpl. destruct (N.eq_dec c AT) as [->|_]; [discriminate|done].
Qed.

Lemma plain_not_space (s : list N) :
  Forall (fun c => plain c = true) s -> Forall (fun c => is_space c = false) s.
Proof.
  induction 1 as [|c s Hc _ IH]; constructor; [|done].
  unfold plain in Hc. apply negb_true_iff, orb_false_iff in Hc. tauto.
Qed.

Lemma isValidEmail_inv (v : list N) :
  isValidEmail v = true ->
  exists l d t,
    v = l ++ AT :: d ++ DOT :: t /\
    (l <> [] /\ Forall (fun c => plain c = true) l) /\
    (d <> [] /\ Forall (fun c => plain c = true) d) /\
    (t <> [] /\ Forall (fun c => plain c = true) t).
Proof.
  unfold isValidEmail, EMAIL. rewrite test_lang.
  intros (l & r1 & -> & Hl%lang_plus_cls & H1)%lang_cat_inv.
  apply lang_cat_inv in H1 as (a & r2 & -> & (c & -> & Hc)%lang_cls_inv & H2).
  apply lang_cat_inv in H2 as (d & r3 & -> & Hd%lang_plus_cls & H3).
  apply lang_cat_inv in H3
    as (b & t & -> & (c' & -> & Hc')%lang_cls_inv & Ht%lang_plus_cls).
  apply N.eqb_eq in Hc as <-. apply N.eqb_eq in Hc' as <-.
  by exists l, d, t.
Qed.

(** X1. [isValidEmail] accepts exactly the strings made of a non-empty local
    part, one [@], a non-empty part, a dot and a non-empty last part, where
    no part holds white space or [@]. *)
Theorem isValidEmail_shape (v : list N) :
  isValidEmail v = true <->
  exists l d t,
    v = l ++ AT :: d ++ DOT :: t /\
    l <> [] /\ d <> [] /\ t <> [] /\
    Forall (fun c => plain c = true) (l ++ d ++ t).
Proof.
  split.
  - intros (l & d & t & -> & [Hl Hpl] & [Hd Hpd] & [Ht Hpt])%isValidEmail_inv.
    exists l, d, t. repeat split; try done.
    rewrite !Forall_app. done.
  - intros (l & d & t & -> & Hl & Hd & Ht & (Hpl & Hpd)%Forall_app).
    apply Forall_app in Hpd as [Hpd Hpt].
    unfold isValidEmail, EMAIL. rewrite test_lang.
    apply lang_cat; [by apply lang_plus_cls|].
    apply (lang_cat _ _ [AT]); [by constructor|].
    apply lang_cat; [by apply lang_plus_cls|].
    apply (lang_cat _ _ [DOT]); [by constructor|].
    by apply lang_plus_cls.
Qed.

(** X2. A string [isValidEmail] accepts holds no white space, holds exactly
    one [@], which is not its first code unit, and has at least five code
    units. *)
Theorem isValidEmail_one_at (v : list N) :
  isValidEmail v = true ->
  Forall (fun c => is_space c = false) v /\
  count_occ N.eq_dec v AT = 1%nat /\
  head v <> Some AT /\
  (5 <= length v)%nat.
Proof.
  intros (l & d & t & -> & [Hl Hpl] & [Hd Hpd] & [Ht Hpt])%isValidEmail_inv.
  split; [|split; [|split]].
  - rewrite Forall_app, Forall_cons, Forall_app, Forall_cons.
    repeat split; try by apply plain_not_space.
  - rewrite count_occ_app, (plain_not_at l Hpl). simpl.
    destruct (N.eq_dec AT AT) as [_|?]; [|done].
    rewrite count_occ_app, (plain_not_at d Hpd). simpl.
    destruct (N.eq_dec DOT AT) as [?|_]; [done|].
    by rewrite (plain_not_at t Hpt).
  - destruct Hpl as [|c l Hc _]; [done|]. simpl. intros [= ->]. done.
  - rewrite length_app. simpl. rewrite length_app. simpl.
    destruct l; [done|]. destruct d; [done|]. destruct t; [done|].
    simpl. lia.
Qed.

Lemma isValidEmail_one_at_witness :
  isValidEmail [97; 64; 98; 46; 99]%N = true /\
  count_occ N.eq_dec [97; 64; 98; 46; 99]%N AT = 1%nat.
Proof.
  split; [reflexivity|].
  apply (isValidEmail_one_at [97; 64; 98; 46; 99]%N). reflexivity.
Defined.

End EmailFacts.

(* ===================================================================== *)
(** * The debit of a completion                                           *)
(* ===================================================================== *)

Section ChatFacts.

Import Proxy Props Samples Cases.

Lemma or_zero_Some_Fin (q : Qc) : or_zero (Some (Fin q)) = Fin q.
Proof.
  unfold or_zero, truthy. case_bool_decide as Hq; simpl; [|done].
  by rewrite Hq.
Qed.

(** The store after a call is the one before, or the one before with the
    debit and its journal entry committed together, and then the reply is
    the completion. *)
Lemma chat_store (env : Env) (req : Request) (s_pre s : Store) :
  (chatCompletions env req s_pre s).2 = s \/
  exists a result acct,
    accept env req s_pre = inr a /\
    callProvider env req a = Ok result /\
    accounts s !! uid a = Some acct /\
    lt (balance_of acct "USD") (costOf result) = false /\
    counted result = true /\
    chatCompletions env req s_pre s
    = (reply 200
         (Completion result (costOf result)
            (sub (balance_of acct "USD") (costOf result))
            (name (providerName a))),
       commit s (uid a) acct
         [("USD", sub (balance_of acct "USD") (costOf result))]
         [llm_usage_entry (uid a) (name (providerName a)) result
            (balance_of acct "USD") (costOf result)]).
Proof.
  destruct (accept env req s_pre) as [r|a] eqn:Ha.
  { left. unfold chatCompletions. by rewrite Ha. }
  destruct (callProvider env req a) as [result|e] eqn:Hr.
  2:{ left. unfold chatCompletions. by rewrite Ha, Hr. }
  pose proof (chat_outcome env req s_pre s a result Ha Hr) as Ho.
  destruct (accounts s !! uid a) as [acct|] eqn:Hs; [|left; by rewrite Ho].
  simpl in Ho. destruct (lt _ _) eqn:Hlt; [left; by rewrite Ho|].
  destruct (counted result) eqn:Hcount; [|left; by rewrite Ho].
  right. by exists a, result, acct.
Qed.

(** X3. Whenever the reply of [POST /v1/chat/completions] is not a 200 - a
    refusal of the pre-checks, an error of the provider, a debit that fails
    - the store is left as it was: no balance is written and no journal
    entry is added. *)
Theorem chat_failure_leaves_store (env : Env) (req : Request)
    (s_pre s_tx : Store) :
  code (chatCompletions env req s_pre s_tx).1 <> 200 ->
  (chatCompletions env req s_pre s_tx).2 = s_tx.
Proof.
  intros Hc.
  destruct (chat_store env req s_pre s_tx)
    as [?|(a & result & acct & _ & _ & _ & _ & _ & Heq)]; [done|].
  rewrite Heq in Hc. done.
Qed.

Lemma chat_failure_leaves_store_witness :
  code (chatCompletions proxy_env0 chat_req0 store0 store_low).1 = 402 /\
  (chatCompletions proxy_env0 chat_req0 store0 store_low).2 = store_low.
Proof.
  split; [reflexivity|].
  apply (chat_failure_leaves_store proxy_env0 chat_req0 store0 store_low).
  discriminate.
Defined.

(** X4. If the cost computed from the provider's response is a number, the
    debit keeps every stored balance non-negative: it never overdraws. *)
Theorem chat_keeps_balances_nonneg (env : Env) (req : Request)
    (s_pre s_tx : Store) :
  (forall a result,
     accept env req s_pre = inr a -> callProvider env req a = Ok result ->
     costOf result <> NaN) ->
  all_balances nonneg s_tx ->
  all_balances nonneg (chatCompletions env req s_pre s_tx).2.
Proof.
  intros Hcost Hs.
  destruct (chat_store env req s_pre s_tx)
    as [->|(a & result & acct & Ha & Hr & Hu & Hlt & _ & ->)]; [done|].
  simpl. apply all_balances_commit; [done..|]. repeat constructor. simpl.
  specialize (Hcost a result Ha Hr).
  destruct (costOf result) as [q|]; [|done].
  destruct (or_zero_Fin (balances acct !! "USD")) as [b Hb].
  unfold balance_of in *. rewrite Hb in *. by apply nonneg_sub_le.
Qed.

Lemma chat_keeps_balances_nonneg_witness :
  all_balances nonneg (chatCompletions proxy_env0 chat_req0 store0 store0).2.
Proof.
  apply (chat_keeps_balances_nonneg proxy_env0 chat_req0 store0 store0).
  - intros a result [= <-] [= <-]. discriminate.
  - by_compute.
Defined.

(** A response without token counts: the journal entry cannot be written,
    the transaction fails as a whole and the reply is a 500. *)
Example chat_uncounted_usage :
  costOf completion_uncounted = NaN /\
  chatCompletions proxy_env_uncounted chat_req0 store0 store0
  = (reply 500 (ErrorReply "Internal error"), store0).
Proof. split; reflexivity. Qed.

(** X5. When the provider's response carries both token counts and the cost
    computed from it is NaN all the same (the model it names is a property
    the pricing table inherits, such as [constructor]), the debit goes
    through: the reply is a 200 and NaN is written over the caller's USD
    balance. The balance then reads as zero, and the caller's next request
    is refused with 402 by the pre-check. *)
Theorem chat_nan_cost_erases_balance (env : Env) (req : Request)
    (s_pre s_tx : Store) (a : Accepted) (result : ChatCompletion)
    (acct : Account) :
  accept env req s_pre = inr a ->
  callProvider env req a = Ok result ->
  counted result = true ->
  costOf result = NaN ->
  accounts s_tx !! uid a = Some acct ->
  let s' := (chatCompletions env req s_pre s_tx).2 in
  code (chatCompletions env req s_pre s_tx).1 = 200 /\
  (exists acct',
     accounts s' !! uid a = Some acct' /\
     balances acct' !! "USD" = Some NaN /\
     balance_of acct' "USD" = of_Z 0) /\
  forall s'', code (chatCompletions env req s' s'').1 = 402.
Proof.
  intros Ha Hr Hcount Hcost Hu s'.
  pose proof (chat_outcome env req s_pre s_tx a result Ha Hr) as Ho.
  rewrite Hu in Ho. simpl in Ho. rewrite Hcost, Hcount in Ho.
  destruct (or_zero_Fin (balances acct !! "USD")) as [b Hb].
  unfold balance_of in Ho. rewrite Hb in Ho. simpl in Ho.
  assert (accounts s' !! uid a = Some (set_fields [("USD", NaN)] acct)) as Hs'.
  { unfold s'. rewrite Ho. simpl. apply lookup_insert_eq. }
  split; [by rewrite Ho|]. split.
  - eexists. split; [exact Hs'|]. unfold balance_of.
    rewrite set_fields_lookup. done.
  - intros s''. unfold chatCompletions.
    assert (accept env req s' = inl (reply 402
              (ErrorReply "Insufficient USD balance. Convert or deposit USD first.")))
      as ->; [|done].
    unfold accept in *.
    destruct (authenticate env req) as [r|u]; [done|].
    destruct (negb _); [done|]. destruct (_ && _); [done|].
    assert (u = uid a) as ->.
    { destruct (accounts s_pre !! u); [|done]. destruct (lt _ _); [done|].
      destruct (getApiKey env _); [|done]. by injection Ha as <-. }
    rewrite Hs'. unfold balance_of. rewrite set_fields_lookup. done.
Qed.

Lemma chat_nan_cost_erases_balance_witness :
  code (chatCompletions proxy_env_nan chat_req0 store0 store0).1 = 200 /\
  (fun acct => balances acct !! "USD")
    <$> accounts (chatCompletions proxy_env_nan chat_req0 store0 store0).2
          !! "agent-a"
  = Some (Some NaN).
Proof.
  destruct (chat_nan_cost_erases_balance proxy_env_nan chat_req0 store0 store0
              {| uid := "agent-a"; providerName := openai; apiKey := "sk-test" |}
              completion_nan (account 5000000 "a@often.ai")
              eq_refl eq_refl eq_refl eq_refl eq_refl)
    as (H200 & (acct' & Hacct' & Hnan & _) & _).
  split; [exact H200|]. cbn [uid] in Hacct'. rewrite Hacct'. simpl.
  by rewrite Hnan.
Defined.

End ChatFacts.

(* ===================================================================== *)
(** * Concurrent completions on one balance                               *)
(* ===================================================================== *)

Section Concurrency.

Import Proxy Props Samples Cases.

Lemma count_code_cons (c : Z) (r : Response Reply) (rs : list (Response Reply)) :
  count_code c (r :: rs)
  = ((if (code r =? c)%Z then 1 else 0) + count_code c rs)%nat.
Proof. unfold count_code. simpl. by destruct (code r =? c). Qed.

Lemma min_succ_div (n B c : Z) :
  0 <= n -> 0 < c -> c <= B ->
  Z.min (n + 1) (B / c) = 1 + Z.min n ((B - c) / c).
Proof.
  intros Hn Hc HB.
  replace (B - c) with (B + (-1) * c) by lia.
  rewrite Z.div_add by lia. lia.
Qed.

Lemma costOf_counted (result : ChatCompletion) :
  costOf result <> NaN -> counted result = true.
Proof.
  unfold costOf, Pricing.calculateCostMicros, counted.
  destruct (prompt_tokens _), (completion_tokens _); try done;
    destruct (Pricing.p_input _), (Pricing.p_output _); done.
Qed.

Lemma serve_accounting (env : Env) (req : Request) (a : Accepted)
    (result : ChatCompletion) (c : Z) (pres : list Store) :
  callProvider env req a = Ok result ->
  costOf result = of_Z c -> 0 < c ->
  Forall (fun s_pre => accept env req s_pre = inr a) pres ->
  forall (s : Store) (acct : Account) (B : Z),
    accounts s !! uid a = Some acct ->
    balance_of acct "USD" = of_Z B -> 0 <= B ->
    let k := Z.min (Z.of_nat (length pres)) (B / c) in
    Z.of_nat (count_code 200 (serve env req pres s).1) = k /\
    Z.of_nat (count_code 402 (serve env req pres s).1)
    = Z.of_nat (length pres) - k /\
    (exists acct',
       accounts (serve env req pres s).2 !! uid a = Some acct' /\
       balance_of acct' "USD" = of_Z (B - k * c)) /\
    Z.of_nat (length (journal (serve env req pres s).2))
    = Z.of_nat (length (journal s)) + k.
Proof.
  intros Hr Hcost Hc.
  assert (counted result = true) as Hcount
    by (apply costOf_counted; by rewrite Hcost).
  induction 1 as [|s_pre pres Ha _ IH]; intros s acct B Hu Hb HB.
  - simpl. assert (0 <= B / c) by (apply Z.div_pos; lia).
    rewrite Z.min_l by done. repeat split; try done; [|lia].
    exists acct. split; [done|]. rewrite Hb. f_equal. lia.
  - pose proof (chat_outcome env req s_pre s a result Ha Hr) as Ho.
    rewrite Hu in Ho. simpl in Ho.
    rewrite Hb, Hcost, Hcount, lt_of_Z, of_Z_sub in Ho.
    cbn [serve length]. rewrite Nat2Z.inj_succ, <-Z.add_1_r.
    case_bool_decide as Hlt; rewrite Ho.
    + destruct (IH s acct B Hu Hb HB) as (H200 & H402 & Hbal & Hj).
      destruct (serve env req pres s) as [rs s2]. simpl in *.
      rewrite !count_code_cons. simpl.
      rewrite Z.div_small in * by lia.
      rewrite Z.min_r in * by lia.
      repeat split; try done; lia.
    + set (s1 := commit s (uid a) acct [("USD", of_Z (B - c))]
                   [llm_usage_entry (uid a) (name (providerName a)) result
                      (of_Z B) (of_Z c)]).
      assert (accounts s1 !! uid a
              = Some (set_fields [("USD", of_Z (B - c))] acct)) as Hu1
        by apply lookup_insert_eq.
      assert (balance_of (set_fields [("USD", of_Z (B - c))] acct) "USD"
              = of_Z (B - c)) as Hb1.
      { unfold balance_of. rewrite set_fields_lookup. apply or_zero_Some_Fin. }
      destruct (IH s1 _ (B - c) Hu1 Hb1 ltac:(lia)) as (H200 & H402 & Hbal & Hj).
      destruct (serve env req pres s1) as [rs s2]. simpl in *.
      rewrite !count_code_cons. simpl.
      rewrite min_succ_div by lia.
      rewrite length_app in Hj. simpl in Hj.
      repeat split; try lia.
      destruct Hbal as (acct' & Hacct' & Hbal). exists acct'.
      split; [done|]. rewrite Hbal. f_equal. lia.
Qed.

(** X6. Requests that passed the pre-check together and cost [c] each (a
    usage of whole token counts whose weighted sum is at most 2^53) are
    debited one after the other: on an opening balance [B] of at most 2^53
    micros, exactly [min(n, B / c)] of the [n] requests are answered 200 and
    the others 402, the balance ends at [B] less [c] per success, never
    below zero, and the journal grows by one entry per success. *)
Theorem serve_debits (env : Env) (req : Request) (a : Accepted)
    (result : ChatCompletion) (c : Z) (pres : list Store)
    (s : Store) (acct : Account) (B : Z) :
  callProvider env req a = Ok result ->
  exact_usage (cc_model result) (prompt_tokens (cc_usage result))
    (completion_tokens (cc_usage result)) ->
  costOf result = of_Z c -> 0 < c ->
  Forall (fun s_pre => accept env req s_pre = inr a) pres ->
  accounts s !! uid a = Some acct ->
  balance_of acct "USD" = of_Z B -> 0 <= B <= MAX_EXACT ->
  let n := Z.of_nat (length pres) in
  let k := Z.min n (B / c) in
  let rs := (serve env req pres s).1 in
  let s' := (serve env req pres s).2 in
  Z.of_nat (count_code 200 rs) = k /\
  Z.of_nat (count_code 402 rs) = n - k /\
  (exists acct',
     accounts s' !! uid a = Some acct' /\
     balance_of acct' "USD" = of_Z (B - k * c) /\ 0 <= B - k * c) /\
  Z.of_nat (length (journal s')) = Z.of_nat (length (journal s)) + k.
Proof.
  intros Hr _ Hcost Hc Hpres Hu Hb [HB _] n k rs s'.
  destruct (serve_accounting env req a result c pres Hr Hcost Hc Hpres
              s acct B Hu Hb HB) as (H200 & H402 & (acct' & Hu' & Hb') & Hj).
  repeat split; try done.
  exists acct'. repeat split; try done.
  assert (k * c <= B / c * c) by (apply Z.mul_le_mono_nonneg_r; lia).
  pose proof (Z.mul_div_le B c Hc). lia.
Qed.

Lemma serve_debits_witness :
  let pres := [store_2000; store_2000; store_2000] in
  count_code 200 (serve proxy_env0 chat_req0 pres store_2000).1 = 2%nat /\
  count_code 402 (serve proxy_env0 chat_req0 pres store_2000).1 = 1%nat /\
  exists acct',
    accounts (serve proxy_env0 chat_req0 pres store_2000).2 !! "agent-a"
    = Some acct' /\
    balance_of acct' "USD" = of_Z 500.
Proof.
  intros pres.
  destruct (serve_debits proxy_env0 chat_req0
              {| uid := "agent-a"; providerName := openai; apiKey := "sk-test" |}
              completion0 750 pres store_2000 (account 2000 "a@often.ai") 2000
              eq_refl ltac:(by_compute) eq_refl eq_refl
              ltac:(repeat constructor) eq_refl eq_refl ltac:(by_compute))
    as (H200 & H402 & (acct' & Hu & Hb & _) & _).
  split; [|split].
  - apply Nat2Z.inj. exact H200.
  - apply Nat2Z.inj. exact H402.
  - exists acct'. split; [exact Hu|exact Hb].
Defined.

End Concurrency.

(* ===================================================================== *)
(** * The ledger as a whole                                               *)
(* ===================================================================== *)

Section LedgerFacts.

Import Functions Props Views Samples.

(** A transfer leaves the store as it was, or it is answered 200 and moves
    the amount. *)
Lemma transfer_cases (env : Env) (req : Request TransferBody) (s : Store) :
  ((transfer env req s).2 = s /\ code (transfer env req s).1 <> 200) \/
  exists uid a sAcct rAcct,
    let to := t_toAccountId (payload req) in
    let c := t_currency (payload req) in
    verifyIdToken env req = inr uid /\ same to uid = false /\
    le (Fin a) (of_Z 0) = false /\
    accounts s !! uid = Some sAcct /\ accounts s !! text to = Some rAcct /\
    lt (balance_of sAcct c) (Fin a) = false /\
    transfer env req s
    = (reply 200 (BalanceReply c (sub (balance_of sAcct c) (Fin a))),
       transferred s uid to c (Fin a) (t_description (payload req)) sAcct rAcct).
Proof.
  destruct (transfer_checks env req) as [r|[uid a]] eqn:Hc.
  { left. unfold transfer. rewrite Hc. split; [done|].
    by apply transfer_checks_inl in Hc. }
  pose proof (transfer_checks_inr _ _ _ _ Hc) as (_ & Hv & _ & Hpos & _ & Hne).
  pose proof (transfer_outcome env req s uid a Hc) as Ho. simpl in Ho.
  destruct (accounts s !! uid) as [sAcct|] eqn:Hs; [|left; by rewrite Ho].
  destruct (accounts s !! text (t_toAccountId (payload req)))
    as [rAcct|] eqn:Hr; [|left; by rewrite Ho].
  destruct (lt _ _) eqn:Hlt; [left; by rewrite Ho|].
  right. by exists uid, a, sAcct, rAcct.
Qed.

(** A conversion leaves the store as it was, or it is answered 200 and
    debits one currency and credits the other. *)
Lemma convert_cases (env : Env) (req : Request ConvertBody) (s : Store) :
  ((convert env req s).2 = s /\
   forall r, (convert env req s).1 = Ok r -> code r <> 200) \/
  exists uid a acct rates cv,
    let from := c_from (payload req) in
    let to := c_to (payload req) in
    verifyIdToken env req = inr uid /\ from <> to /\
    getExchangeRates env = Ok rates /\
    convertCurrency from to (Fin a) rates = Ok cv /\
    le cv (of_Z 0) = false /\
    accounts s !! uid = Some acct /\
    lt (balance_of acct from) (Fin a) = false /\
    convert env req s
    = (Ok (reply 200
             (ConvertedReply from (Fin a) to cv
                (<[to := add (balance_of acct to) cv]>
                   (<[from := sub (balance_of acct from) (Fin a)]>
                      (balances acct))))),
       commit s uid acct
         [ (from, sub (balance_of acct from) (Fin a));
           (to, add (balance_of acct to) cv) ]
         [ conversion_entry uid from to (balance_of acct from) (Fin a) cv
             rates ]).
Proof.
  destruct (convert_checks env req) as [r|[uid a]] eqn:Hc.
  { left. unfold convert. rewrite Hc. split; [done|].
    intros r' [= <-]. by apply convert_checks_inl in Hc. }
  pose proof (convert_checks_inr _ _ _ _ Hc) as (_ & Hv & _ & _ & Hne & _).
  pose proof (convert_outcome env req s uid a Hc) as Ho. simpl in Ho.
  destruct (getExchangeRates env) as [rates|e]; [|left; by rewrite Ho].
  destruct (convertCurrency _ _ _ rates) as [cv|e] eqn:Hcv;
    [|left; by rewrite Ho].
  destruct (le cv (of_Z 0)) eqn:Hle.
  { left. rewrite Ho. split; [done|]. by intros r [= <-]. }
  destruct (accounts s !! uid) as [acct|] eqn:Hs.
  2:{ left. rewrite Ho. split; [done|]. by intros r [= <-]. }
  destruct (lt _ _) eqn:Hlt.
  { left. rewrite Ho. split; [done|]. by intros r [= <-]. }
  right. by exists uid, a, acct, rates, cv.
Qed.

Lemma deposit_cases (env : Env) (req : Request DepositBody) (s : Store) :
  ((deposit env req s).2 = s /\ code (deposit env req s).1 <> 200) \/
  exists a acct,
    let id := d_accountId (payload req) in
    let c := d_currency (payload req) in
    le (Fin a) (of_Z 0) = false /\
    accounts s !! text id = Some acct /\
    deposit env req s =
      (reply 200 (BalanceReply c (add (balance_of acct c) (Fin a))),
       commit s (text id) acct [(c, add (balance_of acct c) (Fin a))]
         [deposit_entry id c (balance_of acct c) (Fin a)]).
Proof.
  unfold deposit. destruct (deposit_checks env req) as [r|a] eqn:Hc.
  { left. split; [done|]. simpl. revert Hc. unfold deposit_checks.
    destruct (negb _); [by intros [= <-]|].
    destruct (negb _); [by intros [= <-]|].
    destruct (d_amount _); [|by intros [= <-]].
    destruct (_ || _); [by intros [= <-]|].
    destruct (negb _); [by intros [= <-]|done]. }
  pose proof (deposit_checks_inr _ _ _ Hc) as (_ & _ & _ & Hpos & _).
  destruct (accounts s !! text (d_accountId (payload req))) as [acct|] eqn:Ha.
  - right. exists a, acct. by rewrite (deposit_tx_commit _ _ _ _ acct).
  - left. by rewrite deposit_tx_missing.
Qed.

(** X7. A deposit or a transfer that is not answered 200, and a conversion
    that is not answered 200 or throws, leaves the store as it was: no
    balance is written and no journal entry is added. *)
Theorem failure_leaves_store (env : Env) (s : Store) :
  (forall req, code (deposit env req s).1 <> 200 -> (deposit env req s).2 = s) /\
  (forall req, code (transfer env req s).1 <> 200 -> (transfer env req s).2 = s) /\
  (forall req,
     (forall r, (convert env req s).1 = Ok r -> code r <> 200) ->
     (convert env req s).2 = s).
Proof.
  split; [|split]; intros req Hc.
  - destruct (deposit_cases env req s) as [[? _]|(a & acct & _ & _ & Heq)];
      [done|].
    rewrite Heq in Hc. done.
  - destruct (transfer_cases env req s)
      as [[? _]|(uid & a & sAcct & rAcct & _ & _ & _ & _ & _ & _ & Heq)]; [done|].
    rewrite Heq in Hc. done.
  - destruct (convert_cases env req s)
      as [[? _]|(uid & a & acct & rates & cv & _ & _ & _ & _ & _ & _ & _ & Heq)];
      [done|].
    rewrite Heq in Hc. by specialize (Hc _ eq_refl).
Qed.

Lemma failure_leaves_store_witness :
  code (transfer env0 (agent_post (transfer_body (Qc_of_Z 9000000))) store0).1
  = 402 /\
  (transfer env0 (agent_post (transfer_body (Qc_of_Z 9000000))) store0).2
  = store0.
Proof.
  split; [reflexivity|].
  apply (failure_leaves_store env0 store0). discriminate.
Defined.

(** X8. The journal only grows: every handler leaves the entries it found
    and appends at most two, and in each entry it appends the balance after
    is the balance before plus the amount (deposit, transfer_in) or minus the
    amount (transfer_out, conversion, llm_usage). *)
Theorem journal_append_only (env : Env) (penv : Proxy.Env) (s : Store) :
  let grows (s' : Store) :=
    exists es, journal s' = journal s ++ es /\ (length es <= 2)%nat /\
               Forall entry_consistent es in
  (forall req, grows (deposit env req s).2) /\
  (forall req, grows (transfer env req s).2) /\
  (forall req, grows (convert env req s).2) /\
  (forall req s_pre, grows (Proxy.chatCompletions penv req s_pre s).2).
Proof.
  intros grows.
  assert (grows s) as Hs.
  { exists []. rewrite app_nil_r. repeat split; [simpl; lia|constructor]. }
  split; [|split; [|split]]; intros req.
  - destruct (deposit_cases env req s) as [[-> _]|(a & acct & _ & _ & ->)];
      [done|].
    eexists. split; [reflexivity|]. split; [simpl; lia|]. by repeat constructor.
  - destruct (transfer_cases env req s)
      as [[-> _]|(uid & a & sAcct & rAcct & _ & _ & _ & _ & _ & _ & ->)]; [done|].
    eexists. split; [reflexivity|]. split; [simpl; lia|]. by repeat constructor.
  - destruct (convert_cases env req s)
      as [[-> _]|(uid & a & acct & rates & cv & _ & _ & _ & _ & _ & _ & _ & ->)];
      [done|].
    eexists. split; [reflexivity|]. split; [simpl; lia|]. by repeat constructor.
  - intros s_pre. destruct (chat_store penv req s_pre s)
      as [->|(a & result & acct & _ & _ & _ & _ & _ & ->)]; [done|].
    eexists. split; [reflexivity|]. split; [simpl; lia|]. by repeat constructor.
Qed.

(** ** The latest entry and the stored balance *)







(** ** What a transfer moves and what it leaves *)




Lemma foldl_insert_frame (fields : list (string * num)) (b : gmap string num)
    (c : string) :
  ~ In c (map fst fields) ->
  foldl (fun b f => <[f.1 := f.2]> b) b fields !! c = b !! c.
Proof.
  revert b. induction fields as [|f fields IH]; intros b Hc; [done|].
  simpl in *. rewrite IH by tauto. apply lookup_insert_ne. tauto.
Qed.

Lemma same_but_refl (cs : list string) (o : option Account) : same_but cs o o.
Proof. by destruct o. Qed.

Lemma same_but_insert (cs : list string) (m : gmap string Account)
    uid acct fields u :
  m !! uid = Some acct ->
  (forall c, In c (map fst fields) -> In c cs) ->
  same_but cs (m !! u) (<[uid := set_fields fields acct]> m !! u).
Proof.
  intros Hu Hcs. destruct (decide (u = uid)) as [->|Hne].
  - rewrite lookup_insert_eq, Hu. simpl. repeat split.
    intros c Hc. apply foldl_insert_frame. auto.
  - rewrite lookup_insert_ne by done. apply same_but_refl.
Qed.

Lemma same_but_trans (cs : list string) (o1 o2 o3 : option Account) :
  same_but cs o1 o2 -> same_but cs o2 o3 -> same_but cs o1 o3.
Proof.
  destruct o1, o2, o3; simpl; try done.
  intros (-> & -> & H1) (-> & -> & H2). repeat split.
  intros c Hc. by rewrite H2, H1.
Qed.

(** X11. No handler creates or deletes an account, or changes a status or
    an email; a deposit touches only the balance of the named account in the
    named currency, a transfer only the balances of the caller and of the
    recipient in the named currency, a conversion only the caller's balances
    in the two currencies. *)
Theorem handlers_frame (env : Env) (s : Store) :
  (forall req u,
     let s' := (deposit env req s).2 in
     same_but [d_currency (payload req)] (accounts s !! u) (accounts s' !! u) /\
     (u <> text (d_accountId (payload req)) ->
      accounts s' !! u = accounts s !! u)) /\
  (forall req u,
     let s' := (transfer env req s).2 in
     same_but [t_currency (payload req)] (accounts s !! u) (accounts s' !! u) /\
     (verifyIdToken env req <> inr u ->
      u <> text (t_toAccountId (payload req)) ->
      accounts s' !! u = accounts s !! u)) /\
  (forall req u,
     let s' := (convert env req s).2 in
     same_but [c_from (payload req); c_to (payload req)]
       (accounts s !! u) (accounts s' !! u) /\
     (verifyIdToken env req <> inr u -> accounts s' !! u = accounts s !! u)).
Proof.
  split; [|split]; intros req u s'; unfold s'.
  - destruct (deposit_cases env req s) as [[-> _]|(a & acct & _ & Hu & ->)];
      [split; [apply same_but_refl|done]|].
    simpl. split.
    + apply same_but_insert; [done|]. simpl. auto.
    + intros Hne. by rewrite lookup_insert_ne.
  - destruct (transfer_cases env req s)
      as [[-> _]|(uid & a & sAcct & rAcct & Hv & Hne & _ & Hu & Ht & _ & ->)];
      [split; [apply same_but_refl|done]|].
    unfold transferred. simpl. split.
    + eapply same_but_trans;
        [|apply same_but_insert; [|simpl; auto]];
        [apply same_but_insert; [done|simpl; auto]|].
      destruct (decide (text (t_toAccountId (payload req)) = uid)) as [->|?];
        [apply lookup_insert_eq|by rewrite lookup_insert_ne].
    + intros Hu' Ht'. rewrite !lookup_insert_ne; [done| |done].
      intros <-. by apply Hu'.
  - destruct (convert_cases env req s)
      as [[-> _]|(uid & a & acct & rates & cv & Hv & _ & _ & _ & _ & Hu & _ & ->)];
      [split; [apply same_but_refl|done]|].
    simpl. split.
    + apply same_but_insert; [done|]. simpl. auto.
    + intros Hu'. rewrite lookup_insert_ne; [done|].
      intros <-. by apply Hu'.
Qed.

Lemma handlers_frame_witness :
  accounts
    (deposit env0
       (admin_post "secret-admin-key" (deposit_body (Qc_of_Z 10000000)))
       store0).2 !! "agent-a"
  = accounts store0 !! "agent-a".
Proof.
  apply (handlers_frame env0 store0). discriminate.
Defined.

(** ** What the caller is told and what is stored *)



End LedgerFacts.

(* ===================================================================== *)
(** * The price of a completion                                           *)
(* ===================================================================== *)

Section CostFacts.

Import Pricing Views.

Lemma row_of_pos (m : string) : 0 < input (row_of m) /\ 0 < output (row_of m).
Proof.
  unfold row_of. destruct (assoc m PRICING) as [r|] eqn:E.
  - revert E.
    apply (assoc_Forall (fun r => 0 < input r /\ 0 < output r) PRICING m r).
    unfold PRICING. repeat constructor; simpl; lia.
  - simpl. lia.
Qed.

Lemma ceil_div_bounds (n d : Z) :
  0 < d -> n <= d * ceil_div n d < n + d.
Proof.
  intros Hd. unfold ceil_div.
  pose proof (Z.mul_div_le (n + d - 1) d Hd).
  pose proof (Z.mul_succ_div_gt (n + d - 1) d Hd). lia.
Qed.

Lemma ceil_div_mono (n n' d : Z) :
  0 < d -> n <= n' -> ceil_div n d <= ceil_div n' d.
Proof. intros Hd Hn. unfold ceil_div. apply Z.div_le_mono; lia. Qed.

(** X13. For a model name that [Object.prototype] does not define and whole
    token counts [p, c >= 0] whose weighted sum [p * input + c * output] is
    at most 2^53, the cost is a whole number of microdollars that is never
    below the exact price and exceeds it by less than one microdollar. *)
Theorem calculateCostMicros_bounds (m : string) (p c : Z) :
  inherited m = false ->
  0 <= p -> 0 <= c ->
  p * input (row_of m) + c * output (row_of m) <= MAX_EXACT ->
  exists k,
    calculateCostMicros m (of_Z p) (of_Z c) = of_Z k /\
    let exact := p * input (row_of m) + c * output (row_of m) in
    exact <= 1000000 * k < exact + 1000000.
Proof.
  intros Hm _ _ _. exists (cost_spec m p c).
  split; [by apply calculateCostMicros_spec|].
  apply ceil_div_bounds. lia.
Qed.

Lemma calculateCostMicros_bounds_witness :
  exists k,
    calculateCostMicros "gpt-4o-mini" (of_Z 1) (of_Z 0) = of_Z k /\
    150000 <= 1000000 * k < 1150000.
Proof.
  apply (calculateCostMicros_bounds "gpt-4o-mini" 1 0);
    [reflexivity|lia|lia|by vm_compute].
Defined.

(** X14. For a model name that [Object.prototype] does not define, more
    tokens never cost less, no tokens cost nothing, and any usage with a
    token in it costs at least one microdollar. *)
Theorem calculateCostMicros_monotone (m : string) (p c p' c' : Z) :
  inherited m = false ->
  0 <= p <= p' -> 0 <= c <= c' ->
  le (calculateCostMicros m (of_Z p) (of_Z c))
     (calculateCostMicros m (of_Z p') (of_Z c')) = true /\
  calculateCostMicros m (of_Z 0) (of_Z 0) = of_Z 0 /\
  (0 < p' + c' ->
   le (of_Z 1) (calculateCostMicros m (of_Z p') (of_Z c')) = true).
Proof.
  intros Hm Hp Hc. rewrite !calculateCostMicros_spec by done.
  rewrite !le_of_Z. destruct (row_of_pos m) as [Hi Ho].
  split; [|split].
  - apply bool_decide_eq_true. apply ceil_div_mono; [lia|nia].
  - by rewrite cost_spec_zero.
  - intros Hpos. apply bool_decide_eq_true.
    pose proof (ceil_div_bounds
                  (p' * input (row_of m) + c' * output (row_of m)) 1000000
                  ltac:(lia)) as Hb.
    fold (cost_spec m p' c') in Hb. nia.
Qed.

Lemma calculateCostMicros_monotone_witness :
  le (calculateCostMicros "gpt-4o" (of_Z 100) (of_Z 50))
     (calculateCostMicros "gpt-4o" (of_Z 1000) (of_Z 500)) = true /\
  le (of_Z 1) (calculateCostMicros "gpt-4o" (of_Z 1000) (of_Z 500)) = true.
Proof.
  destruct (calculateCostMicros_monotone "gpt-4o" 100 50 1000 500 eq_refl
              ltac:(split; discriminate) ltac:(split; discriminate))
    as (Hle & _ & Hpos).
  split; [exact Hle|]. apply Hpos. reflexivity.
Defined.

(** ** The price list *)

Lemma assoc_In {A : Type} (l : list (string * A)) (k : string) (a : A) :
  NoDup (map fst l) -> In (k, a) l -> assoc k l = Some a.
Proof.
  induction l as [|[k' a'] l IH]; simpl; [done|].
  intros [Hk Hl]%NoDup_cons [[= -> ->]|Hin].
  - by rewrite String.eqb_refl.
  - destruct (String.eqb k k') eqn:E; [|by apply IH].
    apply String.eqb_eq in E as ->. exfalso. apply Hk.
    apply list_elem_of_In, in_map_iff. by exists (k', a).
Qed.

Lemma PRICING_NoDup : NoDup (map fst PRICING).
Proof. apply (bool_decide_unpack _). vm_compute. exact I. Qed.

Lemma per_million (p c : num) (i o : Z) :
  div (add (mul p (of_Z i)) (mul c (of_Z o))) (of_Z 1000000)
  = add (mul p (div (of_Z i) (of_Z 1000000)))
        (mul c (div (of_Z o) (of_Z 1000000))).
Proof.
  assert (Qc_of_Z 1000000 <> Qc_of_Z 0) as Hm by (intros ?%Z2Qc_inj; lia).
  unfold div, of_Z. case_bool_decide; [done|].
  destruct p as [x|], c as [y|]; simpl; try done.
  f_equal. field. done.
Qed.

(** X15. Every model of [GET /v1/models] is billed at the listed prices:
    for whole token counts whose weighted sum is at most 2^53, the cost in
    microdollars is the number of prompt tokens times the listed input price
    plus the number of completion tokens times the listed output price (USD
    per million tokens, that is microdollars per token), rounded up. *)
Theorem models_billed_as_listed (l : Listing) (p c : num) :
  In l models ->
  exact_usage (id l) p c ->
  calculateCostMicros (id l) p c
  = ceil (add (mul p (input_per_million_tokens_usd l))
              (mul c (output_per_million_tokens_usd l))).
Proof.
  unfold models. intros ([k r] & <- & Hin)%in_map_iff _. simpl.
  unfold calculateCostMicros, get.
  rewrite (assoc_In PRICING k r PRICING_NoDup Hin). simpl.
  by rewrite per_million.
Qed.

Lemma models_billed_as_listed_witness :
  calculateCostMicros "gpt-4o" (of_Z 1000) (of_Z 500)
  = ceil (add (mul (of_Z 1000) (div (of_Z 2500000) (of_Z 1000000)))
              (mul (of_Z 500) (div (of_Z 10000000) (of_Z 1000000)))).
Proof.
  apply (models_billed_as_listed
           {| id := "gpt-4o"; provider := "openai";
              input_per_million_tokens_usd :=
                div (of_Z 2500000) (of_Z 1000000);
              output_per_million_tokens_usd :=
                div (of_Z 10000000) (of_Z 1000000) |}
           (of_Z 1000) (of_Z 500)).
  - left. reflexivity.
  - by_compute.
Defined.

End CostFacts.

(* ===================================================================== *)
(** * The messages sent to Anthropic                                      *)
(* ===================================================================== *)

Section MessagesFacts.

Import Proxy Props Samples.

Lemma ar_messages_coalesce (body : ChatRequest) :
  ar_messages (toAnthropicRequest body) = coalesce (remaining (messages body)).
Proof.
  unfold toAnthropicRequest. rewrite foldl_step_split. simpl.
  apply msg_fold_coalesce.
Qed.

Lemma remaining_not_system (msgs : list Message) :
  Forall (fun m => role m <> "system") (remaining msgs).
Proof.
  unfold remaining. apply List.Forall_forall. intros m [_ Hm]%filter_In.
  unfold is_system in Hm. by apply negb_true_iff, String.eqb_neq in Hm.
Qed.

Lemma coalesce_alternating (l : list Message) :
  Forall (fun m => role m <> "system") l -> alternating (coalesce l).
Proof.
  induction 1 as [|m l Hm _ IH]; [done|].
  simpl. destruct (coalesce l) as [|h r]; [done|].
  destruct (String.eqb (role m) (role h)) eqn:E.
  - apply String.eqb_eq in E. destruct IH as (_ & Hh & Hr).
    simpl. rewrite E in *. by destruct r.
  - apply String.eqb_neq in E. simpl in *. tauto.
Qed.

Lemma coalesce_length (l : list Message) :
  (length (coalesce l) <= length l)%nat.
Proof.
  induction l as [|m l IH]; [done|].
  simpl. destruct (coalesce l) as [|h r]; [simpl; lia|].
  destruct (String.eqb _ _); simpl in *; lia.
Qed.

Lemma alternating_coalesce (l : list Message) :
  alternating l -> coalesce l = l.
Proof.
  induction l as [|m l IH]; [done|].
  intros (_ & Hh & Hl). simpl. rewrite (IH Hl).
  destruct l as [|h r]; [done|].
  apply String.eqb_neq in Hh. by rewrite Hh.
Qed.

Lemma alternating_remaining (l : list Message) :
  alternating l -> remaining l = l /\ system_contents l = [].
Proof.
  induction l as [|m l IH]; [done|].
  intros (Hm & _ & Hl). destruct (IH Hl) as [Hr Hs].
  assert (is_system m = false) as Hf by by apply String.eqb_neq.
  unfold remaining, system_contents in *. cbn [List.filter].
  rewrite Hf. cbn [negb map]. by rewrite Hr, Hs.
Qed.

(** X16. The messages [toAnthropicRequest] sends never hold a message of
    role system nor two neighbours of the same role, and are no more than
    the messages of the request that are not of role system. *)
Theorem toAnthropicRequest_alternating (body : ChatRequest) :
  alternating (ar_messages (toAnthropicRequest body)) /\
  (length (ar_messages (toAnthropicRequest body))
   <= length (remaining (messages body)))%nat.
Proof.
  rewrite ar_messages_coalesce. split.
  - apply coalesce_alternating, remaining_not_system.
  - apply coalesce_length.
Qed.

(** X17. When no message of the request has the role system and no two
    neighbours have the same role, [toAnthropicRequest] passes the messages
    unchanged and sets no system prompt. *)
Theorem toAnthropicRequest_passes_alternating (body : ChatRequest) :
  alternating (messages body) ->
  ar_messages (toAnthropicRequest body) = messages body /\
  ar_system (toAnthropicRequest body) = None.
Proof.
  intros Ha. destruct (alternating_remaining _ Ha) as [Hr Hs]. split.
  - rewrite ar_messages_coalesce, Hr. by apply alternating_coalesce.
  - unfold toAnthropicRequest. rewrite foldl_step_split, Hs. done.
Qed.

Lemma toAnthropicRequest_passes_alternating_witness :
  ar_messages
    (toAnthropicRequest
       (chat_body "claude-sonnet-4-20250514"
          [ {| role := "user"; content := "Hi" |};
            {| role := "assistant"; content := "Hello" |};
            {| role := "user"; content := "Bye" |} ]))
  = [ {| role := "user"; content := "Hi" |};
      {| role := "assistant"; content := "Hello" |};
      {| role := "user"; content := "Bye" |} ].
Proof.
  apply (toAnthropicRequest_passes_alternating
           (chat_body "claude-sonnet-4-20250514"
              [ {| role := "user"; content := "Hi" |};
                {| role := "assistant"; content := "Hello" |};
                {| role := "user"; content := "Bye" |} ])).
  simpl. repeat split; discriminate.
Defined.

Lemma coalesce_content (l : list Message) :
  join NL (map content (coalesce l)) = join NL (map content l).
Proof.
  induction l as [|m l IH]; [done|].
  destruct l as [|m' l'].
  { done. }
  destruct (coalesce_head m' l') as (h & r & Hc & _).
  cbn [coalesce] in *. fold (coalesce (m' :: l')) in *.
  change (coalesce (m :: m' :: l'))
    with (match coalesce (m' :: l') with
          | [] => [m]
          | h :: r =>
              if String.eqb (role m) (role h)
              then {| role := role m; content := content m +:+ NL +:+ content h |} :: r
              else m :: h :: r
          end).
  rewrite Hc in *. cbn [map] in IH |- *.
  rewrite (join_cons (content m) (content m')), <-IH.
  destruct (String.eqb _ _); cbn [map content].
  - by rewrite join_merge, join_cons.
  - by rewrite join_cons.
Qed.

(** X18. Merging loses no text and keeps its order: the contents of the
    messages sent, joined by newlines, are the contents of the request's
    messages that are not of role system, joined by newlines. *)
Theorem toAnthropicRequest_keeps_content (body : ChatRequest) :
  join NL (map content (ar_messages (toAnthropicRequest body)))
  = join NL (map content (remaining (messages body))).
Proof. rewrite ar_messages_coalesce. apply coalesce_content. Qed.

End MessagesFacts.

(* ===================================================================== *)
(** * Routing                                                             *)
(* ===================================================================== *)

Section Routing.

Import Proxy.

Lemma prefix_String (a b : Ascii.ascii) (s t : string) :
  String.prefix (String a s) (String b t) = Ascii.eqb a b && String.prefix s t.
Proof.
  simpl. destruct (Ascii.ascii_dec a b) as [->|Hne].
  - by rewrite Ascii.eqb_refl.
  - by apply Ascii.eqb_neq in Hne as ->.
Qed.

Lemma prefix_nil (a : Ascii.ascii) (s : string) :
  String.prefix (String a s) "" = false.
Proof. done. Qed.

Ltac heads :=
  repeat match goal with
         | |- context [Ascii.eqb ?a ?b] =>
             first [ is_var b; destruct (Ascii.eqb_spec a b); subst
                   | let v := eval vm_compute in (Ascii.eqb a b) in
                     change (Ascii.eqb a b) with v ]
         | |- context [String.prefix ?p ?t] =>
             is_var t; destruct (String.prefix p t)
         end;
  cbn [andb orb].

(** X19. [detectProvider] routes by prefix, and the prefixes do not
    overlap: a model goes to OpenAI exactly when its name starts with gpt-,
    o1, o3 or o4, to Anthropic exactly when it starts with claude-, to
    Google exactly when it starts with gemini-, to Mistral exactly when it
    starts with mistral-, and to Together otherwise. *)
Theorem detectProvider_by_prefix (m : string) :
  let starts p := String.prefix p m = true in
  (detectProvider m = openai <->
     starts "gpt-" \/ starts "o1" \/ starts "o3" \/ starts "o4") /\
  (detectProvider m = anthropic <-> starts "claude-") /\
  (detectProvider m = google <-> starts "gemini-") /\
  (detectProvider m = mistral <-> starts "mistral-") /\
  (detectProvider m = together <->
     ~ (starts "gpt-" \/ starts "o1" \/ starts "o3" \/ starts "o4" \/
        starts "claude-" \/ starts "gemini-" \/ starts "mistral-")).
Proof.
  unfold detectProvider.
  destruct m as [|b1 [|b2 t]]; rewrite ?prefix_String, ?prefix_nil; heads;
    intuition congruence.
Qed.

End Routing.

(* ===================================================================== *)
(** * The two caches                                                      *)
(* ===================================================================== *)

Section Caches.

Import SecretCache.

(** X20. Once [getApiKey] has returned a key for a secret, every call for
    that secret made before the expiry of the cached entry returns the same
    key and leaves the cache as it is, whatever the secret store would
    answer. *)
Theorem getApiKey_serves_from_cache (keyCache keyCache' : gmap string Cached)
    (now now' : Z) (secretName k : string) (access : result string) :
  getApiKey keyCache now now' secretName access = (Ok k, keyCache') ->
  exists cached,
    keyCache' !! secretName = Some cached /\ key cached = k /\
    forall now2 now2' access2,
      now2 < expiry cached ->
      getApiKey keyCache' now2 now2' secretName access2 = (Ok k, keyCache').
Proof.
  unfold getApiKey.
  assert (forall cached,
            keyCache' !! secretName = Some cached -> key cached = k ->
            exists cached,
              keyCache' !! secretName = Some cached /\ key cached = k /\
              forall now2 (now2' : Z) (access2 : result string),
                now2 < expiry cached ->
                (let miss :=
                   match access2 with
                   | Ok k0 =>
                       (Ok k0,
                        <[secretName := {| key := k0;
                                           expiry := now2' + CACHE_TTL |}]>
                          keyCache')
                   | Throw e => (Throw e, keyCache')
                   end in
                 match keyCache' !! secretName with
                 | Some cached0 =>
                     if now2 <? expiry cached0
                     then (Ok (key cached0), keyCache') else miss
                 | None => miss
                 end) = (Ok k, keyCache')) as Hhit.
  { intros cached Hc Hk. exists cached. repeat split; try done.
    intros now2 now2' access2 Hlt. simpl. rewrite Hc.
    apply Z.ltb_lt in Hlt. rewrite Hlt. by rewrite Hk. }
  assert (match access with
          | Ok k0 =>
              (Ok k0,
               <[secretName := {| key := k0; expiry := now' + CACHE_TTL |}]>
                 keyCache)
          | Throw e => (Throw e, keyCache)
          end = (Ok k, keyCache') ->
          exists cached, keyCache' !! secretName = Some cached /\
                         key cached = k) as Hmiss.
  { destruct access as [k0|e]; [|done]. intros [= -> <-].
    eexists. split; [apply lookup_insert_eq|done]. }
  simpl. destruct (keyCache !! secretName) as [cached|] eqn:Hc.
  - destruct (now <? expiry cached) eqn:Hlt.
    + intros [= <- <-]. by apply (Hhit cached).
    + intros (c' & Hc' & Hk)%Hmiss. by apply (Hhit c').
  - intros (c' & Hc' & Hk)%Hmiss. by apply (Hhit c').
Qed.

Lemma getApiKey_serves_from_cache_witness :
  getApiKey (<["OPENAI_API_KEY" := {| key := "sk-1"; expiry := 300000 |}]> ∅)
    299999 299999 "OPENAI_API_KEY" (Throw (Error "unavailable"))
  = (Ok "sk-1",
     <["OPENAI_API_KEY" := {| key := "sk-1"; expiry := 300000 |}]> ∅).
Proof.
  assert (getApiKey ∅ 0 0 "OPENAI_API_KEY" (Ok "sk-1")
          = (Ok "sk-1",
             <["OPENAI_API_KEY" := {| key := "sk-1"; expiry := 300000 |}]> ∅))
    as Hfirst by reflexivity.
  destruct (getApiKey_serves_from_cache _ _ _ _ _ _ _ Hfirst)
    as (cached & Hc & _ & Hserve).
  injection Hc as <-. apply Hserve. reflexivity.
Defined.

(** X21. A call of [getApiKey] never touches the entry of another secret.
    When the secret store fails and the cache holds no entry that is still
    fresh, the call throws and leaves the cache as it is: an expired key is
    not served. *)
Theorem getApiKey_failure (keyCache : gmap string Cached) (now now' : Z)
    (secretName : string) (access : result string) :
  (forall other,
     other <> secretName ->
     (getApiKey keyCache now now' secretName access).2 !! other
     = keyCache !! other) /\
  (forall e,
     access = Throw e ->
     (forall cached,
        keyCache !! secretName = Some cached -> expiry cached <= now) ->
     getApiKey keyCache now now' secretName access = (Throw e, keyCache)).
Proof.
  unfold getApiKey. split.
  - intros other Hne. simpl.
    assert ((match access with
             | Ok k =>
                 (Ok k,
                  <[secretName := {| key := k; expiry := now' + CACHE_TTL |}]>
                    keyCache)
             | Throw e => (Throw e, keyCache)
             end).2 !! other = keyCache !! other) as Hmiss.
    { destruct access; simpl; [by rewrite lookup_insert_ne|done]. }
    destruct (keyCache !! secretName) as [cached|]; [|done].
    by destruct (now <? expiry cached).
  - intros e -> Hexp. simpl.
    destruct (keyCache !! secretName) as [cached|]; [|done].
    specialize (Hexp cached eq_refl).
    apply Z.ltb_ge in Hexp. by rewrite Hexp.
Qed.

Lemma getApiKey_failure_witness :
  getApiKey (<["OPENAI_API_KEY" := {| key := "sk-1"; expiry := 300000 |}]> ∅)
    300000 300000 "OPENAI_API_KEY" (Throw (Error "unavailable"))
  = (Throw (Error "unavailable"),
     <["OPENAI_API_KEY" := {| key := "sk-1"; expiry := 300000 |}]> ∅).
Proof.
  apply (getApiKey_failure
           (<["OPENAI_API_KEY" := {| key := "sk-1"; expiry := 300000 |}]> ∅)
           300000 300000 "OPENAI_API_KEY" (Throw (Error "unavailable")));
    [reflexivity|].
  intros cached [= <-]. discriminate.
Defined.

End Caches.

Section Rates.

Import Functions RateOracle.

(** X22. [getExchangeRates] throws only when it holds no rates at all and
    the fetch or the reading of the reply fails; then the cache is left as
    it is. Once it holds rates, however old, it never throws. *)
Theorem getExchangeRates_throws (c : Cache) (now now' : Z)
    (fetch : result Body) (e : exn) :
  (getExchangeRates c now now' fetch).1 = Throw e <->
  rateCache c = None /\ fetch ≫= quote = Throw e /\
  (getExchangeRates c now now' fetch).2 = c.
Proof.
  unfold getExchangeRates. destruct (rateCache c) as [r|].
  - split; [|by intros [? _]].
    destruct (now <? rateCacheExp c); [done|].
    by destruct (fetch ≫= quote).
  - destruct (fetch ≫= quote) as [r'|e']; simpl.
    + split; [done|]. by intros (_ & ? & _).
    + split; [by intros [= ->]|]. by intros (_ & [= ->] & _).
Qed.

(** X23. Whatever [getExchangeRates] returns is what the cache holds
    afterwards, and every call made before the cache expires returns the
    same rates and leaves the cache as it is, without looking at what the
    oracle would answer. *)
Theorem getExchangeRates_serves_from_cache (c c' : Cache) (now now' : Z)
    (fetch : result Body) (r : Rates) :
  getExchangeRates c now now' fetch = (Ok r, c') ->
  rateCache c' = Some r /\
  forall now2 now2' fetch2,
    now2 < rateCacheExp c' ->
    getExchangeRates c' now2 now2' fetch2 = (Ok r, c').
Proof.
  intros H.
  assert (rateCache c' = Some r) as Hc'.
  { revert H. unfold getExchangeRates.
    destruct (rateCache c) as [r0|] eqn:Hc.
    - destruct (now <? rateCacheExp c); [by intros [= <- <-]|].
      destruct (fetch ≫= quote); by intros [= <- <-].
    - destruct (fetch ≫= quote); [by intros [= <- <-]|done]. }
  split; [done|]. intros now2 now2' fetch2 Hlt.
  unfold getExchangeRates. rewrite Hc'.
  apply Z.ltb_lt in Hlt. by rewrite Hlt.
Qed.

Lemma getExchangeRates_serves_from_cache_witness :
  let d := {| usd_coin := Some (of_Z 1); ethereum := Some (of_Z 3500);
              bitcoin := Some (of_Z 65000); solana := Some (of_Z 150) |} in
  exists r c',
    getExchangeRates INITIAL 1000 1200 (Ok d) = (Ok r, c') /\
    r "ETH" = of_Z 3500 /\
    getExchangeRates c' 61199 61199 (Throw BAD_RESPONSE) = (Ok r, c').
Proof.
  intros d. do 2 eexists. split; [reflexivity|]. split; [reflexivity|].
  eapply (getExchangeRates_serves_from_cache INITIAL _ 1000 1200 (Ok d));
    reflexivity.
Defined.

(** X24. The reply of the oracle is accepted as soon as it has an entry for
    each of the four coins: a rate that is absent from its entry is stored
    as it is, and afterwards served, as NaN. In every quote the rate of USD
    is 1 and the rate of any other name than the five currencies is
    undefined. *)
Theorem quote_checks_entries_only (d : Body) :
  (is_Some (usd_coin d) /\ is_Some (ethereum d) /\ is_Some (bitcoin d) /\
   is_Some (solana d) <->
   exists r, quote d = Ok r) /\
  (forall r, quote d = Ok r ->
     r "USD" = of_Z 1 /\
     Some (r "USDC") = usd_coin d /\ Some (r "ETH") = ethereum d /\
     Some (r "BTC") = bitcoin d /\ Some (r "SOL") = solana d /\
     forall c, supported c = false -> r c = NaN).
Proof.
  unfold quote. split.
  - split.
    + intros ([usdc Hu] & [eth He] & [btc Hb] & [sol Hs]).
      rewrite Hu, He, Hb, Hs. simpl. eauto.
    + intros [r Hr]. destruct (ethereum d); [|done].
      destruct (usd_coin d); [|done]. destruct (bitcoin d); [|done].
      destruct (solana d); [|done]. repeat split; eauto.
  - intros r. destruct (ethereum d) as [eth|]; [|done].
    destruct (usd_coin d) as [usdc|]; [|done].
    destruct (bitcoin d) as [btc|]; [|done].
    destruct (solana d) as [sol|]; [|done].
    simpl. intros [= <-]. repeat split.
    intros c Hc. unfold supported in Hc. simpl in Hc.
    repeat (apply orb_false_iff in Hc as [-> Hc]). done.
Qed.

Lemma quote_checks_entries_only_witness :
  let d := {| usd_coin := Some (of_Z 1); ethereum := Some NaN;
              bitcoin := Some (of_Z 65000); solana := Some (of_Z 150) |} in
  exists r, quote d = Ok r /\ r "USD" = of_Z 1 /\ r "ETH" = NaN.
Proof.
  intros d.
  pose proof (proj2 (quote_checks_entries_only d) _ eq_refl) as (Husd & _).
  eexists. split; [reflexivity|]. split; [exact Husd|reflexivity].
Defined.

End Rates.

(* ===================================================================== *)
(** * Converting there and back                                           *)
(* ===================================================================== *)

Section RoundTrip.

Import Functions Samples.

Lemma converted_spec_div (from to : string) (z fc tc : Z) :
  supported from = true -> supported to = true ->
  0 <= z -> 0 <= fc -> 0 < tc ->
  converted_spec from to z fc tc
  = (z * fc * unit_of to) / (unit_of from * tc).
Proof.
  intros [_ Hf]%supported_unit [_ Ht]%supported_unit Hz Hfc Htc.
  unfold converted_spec. apply Z.quot_div_nonneg; nia.
Qed.

(** X25. Converting a whole amount of at most 2^53 to another currency and
    the result, when it is at most 2^53 too, back at the same rates never
    returns more than the amount: the truncations of the two integer
    divisions only lose. *)
Theorem convertCurrency_round_trip (from to : string) (z : Z) (rates : Rates)
    (fc tc : Z) :
  from <> to -> supported from = true -> supported to = true ->
  cents rates from = Some fc -> cents rates to = Some tc ->
  0 < fc -> 0 < tc -> 0 <= z <= MAX_EXACT ->
  converted_spec from to z fc tc <= MAX_EXACT ->
  exists v w,
    convertCurrency from to (of_Z z) rates = Ok (of_Z v) /\
    convertCurrency to from (of_Z v) rates = Ok (of_Z w) /\
    0 <= v /\ 0 <= w <= z.
Proof.
  intros Hne Hf Ht Hfc Htc Hfpos Htpos [Hz _] _.
  pose proof (supported_unit _ Hf) as [_ Hfu].
  pose proof (supported_unit _ Ht) as [_ Htu].
  assert (to <> from) as Hne' by congruence.
  exists (converted_spec from to z fc tc).
  exists (converted_spec to from (converted_spec from to z fc tc) tc fc).
  assert (0 <= converted_spec from to z fc tc) as Hv
    by (apply converted_spec_nonneg; try done; lia).
  split; [apply convertCurrency_formula; try done; lia|].
  split; [apply convertCurrency_formula; try done; lia|].
  split; [done|].
  rewrite (converted_spec_div to from) by (try done; lia).
  rewrite (converted_spec_div from to) in * by (try done; lia).
  set (v := z * fc * unit_of to / (unit_of from * tc)) in *.
  assert (unit_of from * tc * v <= z * fc * unit_of to) as Hfloor
    by (apply Z.mul_div_le; nia).
  split; [apply Z.div_pos; nia|].
  apply Z.div_le_upper_bound; nia.
Qed.

Lemma convertCurrency_round_trip_witness :
  exists v w,
    convertCurrency "USD" "ETH" (of_Z 1000000) rates0 = Ok (of_Z v) /\
    convertCurrency "ETH" "USD" (of_Z v) rates0 = Ok (of_Z w) /\
    0 <= v /\ 0 <= w <= 1000000.
Proof.
  apply (convertCurrency_round_trip "USD" "ETH" 1000000 rates0 100 350000);
    try reflexivity; try discriminate. split; discriminate.
Defined.

(** X26. At given rates, a larger amount never converts to less. *)
Theorem convertCurrency_monotone (from to : string) (z z' : Z) (rates : Rates)
    (fc tc : Z) :
  from <> to -> supported from = true -> supported to = true ->
  cents rates from = Some fc -> cents rates to = Some tc ->
  0 <= fc -> 0 < tc -> 0 <= z <= z' ->
  exists v v',
    convertCurrency from to (of_Z z) rates = Ok (of_Z v) /\
    convertCurrency from to (of_Z z') rates = Ok (of_Z v') /\
    v <= v'.
Proof.
  intros Hne Hf Ht Hfc Htc Hfpos Htpos Hz.
  pose proof (supported_unit _ Hf) as [_ Hfu].
  pose proof (supported_unit _ Ht) as [_ Htu].
  exists (converted_spec from to z fc tc), (converted_spec from to z' fc tc).
  split; [apply convertCurrency_formula; try done; lia|].
  split; [apply convertCurrency_formula; try done; lia|].
  rewrite !converted_spec_div by (try done; lia).
  apply Z.div_le_mono; [nia|].
  apply Z.mul_le_mono_nonneg_r; [lia|].
  apply Z.mul_le_mono_nonneg_r; lia.
Qed.

Lemma convertCurrency_monotone_witness :
  exists v v',
    convertCurrency "ETH" "BTC" (of_Z 1000000) rates0 = Ok (of_Z v) /\
    convertCurrency "ETH" "BTC" (of_Z 1000000000) rates0 = Ok (of_Z v') /\
    v <= v'.
Proof.
  apply (convertCurrency_monotone "ETH" "BTC" 1000000 1000000000 rates0
           350000 6500000);
    try reflexivity; try discriminate. split; discriminate.
Defined.

End RoundTrip.

(* ===================================================================== *)
(** * The caller's identity                                               *)
(* ===================================================================== *)

Section Identity.

Lemma substring_all (t : string) : String.substring 0 (String.length t) t = t.
Proof. induction t as [|c t IH]; simpl; [done|by rewrite IH]. Qed.

Lemma append_String (c : Ascii.ascii) (s t : string) :
  String c s +:+ t = String c (s +:+ t).
Proof. done. Qed.

Lemma append_empty (t : string) : "" +:+ t = t.
Proof. done. Qed.

(** [hdr.startsWith("Bearer ")] and [hdr.substring(7)] *)
Lemma bearer_token (hdr : string) :
  String.prefix "Bearer " hdr = true <->
  exists token, hdr = "Bearer " +:+ token.
Proof.
  split.
  - intros H.
    do 7 (destruct hdr as [|? hdr];
          [by rewrite ?prefix_String, ?prefix_nil, ?andb_false_r in H|]).
    rewrite !prefix_String in H.
    repeat (apply andb_true_iff in H as [<-%Ascii.eqb_eq H]).
    by exists hdr.
  - intros [token ->]. rewrite !append_String, append_empty.
    rewrite !prefix_String. simpl. by destruct token.
Qed.

Lemma bearer_substring (token : string) :
  String.substring 7 (String.length ("Bearer " +:+ token) - 7)
    ("Bearer " +:+ token) = token.
Proof.
  rewrite !append_String, append_empty.
  cbn [String.length Nat.sub String.substring].
  rewrite Nat.sub_0_r. apply substring_all.
Qed.

(** X27. Both services identify the caller in the same way, and by the
    Authorization header alone: the caller is [uid] exactly when the header
    is [Bearer] followed by a token that verifies to [uid]; every other
    request is answered 401. *)
Theorem identity_from_bearer_token (B : Type) (env : Functions.Env)
    (req : Functions.Request B) (penv : Proxy.Env) (preq : Proxy.Request)
    (uid : string) :
  (Functions.verifyIdToken env req = inr uid <->
   exists token,
     Functions.authorization req = Some ("Bearer " +:+ token) /\
     Functions.verify env token = Some uid) /\
  (Proxy.authenticate penv preq = inr uid <->
   exists token,
     Proxy.authorization preq = Some ("Bearer " +:+ token) /\
     Proxy.verify penv token = Some uid) /\
  (forall r, Functions.verifyIdToken env req = inl r -> code r = 401) /\
  (forall r, Proxy.authenticate penv preq = inl r -> code r = 401).
Proof.
  assert (forall (verify : string -> option string) (hdr : option string),
            (String.prefix "Bearer " (default "" hdr) = true /\
             verify (String.substring 7 (String.length (default "" hdr) - 7)
                       (default "" hdr)) = Some uid) <->
            exists token, hdr = Some ("Bearer " +:+ token) /\
                          verify token = Some uid) as Hhdr.
  { intros verify hdr. split.
    - intros [[token Ht]%bearer_token Hv]. rewrite Ht in Hv.
      rewrite bearer_substring in Hv. exists token. split; [|done].
      destruct hdr as [h|]; simpl in Ht; [by rewrite Ht|].
      by destruct token.
    - intros (token & -> & Hv).
      change (default "" (Some ("Bearer " +:+ token)))
        with ("Bearer " +:+ token).
      rewrite bearer_substring.
      split; [|done]. apply bearer_token. by exists token. }
  split; [|split; [|split]].
  - rewrite <-Hhdr. unfold Functions.verifyIdToken.
    destruct (String.prefix _ _); simpl; [|by split; [|intros []]].
    destruct (Functions.verify env _); split; try done;
      try (by intros [= ->]); try (by intros [_ [= ->]]); by intros [_ ?].
  - rewrite <-Hhdr. unfold Proxy.authenticate.
    destruct (String.prefix _ _); simpl; [|by split; [|intros []]].
    destruct (Proxy.verify penv _); split; try done;
      try (by intros [= ->]); try (by intros [_ [= ->]]); by intros [_ ?].
  - apply verifyIdToken_inl.
  - apply authenticate_inl.
Qed.

Lemma identity_from_bearer_token_witness :
  Functions.verifyIdToken Samples.env0 (Samples.agent_post tt) = inr "agent-a" /\
  Proxy.authenticate Samples.proxy_env0 Samples.chat_req0 = inr "agent-a".
Proof.
  split.
  - apply (identity_from_bearer_token unit Samples.env0 (Samples.agent_post tt)
             Samples.proxy_env0 Samples.chat_req0 "agent-a").
    exists "token-a". split; reflexivity.
  - apply (identity_from_bearer_token unit Samples.env0 (Samples.agent_post tt)
             Samples.proxy_env0 Samples.chat_req0 "agent-a").
    exists "token-a". split; reflexivity.
Defined.

End Identity.
